(** * Word selection and definition cleaning of the Defindle word game

    A shallow embedding of the two word services of the server
    ([server/wordService.ts] and [server/enhancedWordService.ts]) and the
    properties of their selection, fallback and cleaning logic.

    Conventions of the embedding.
    - A JavaScript string is a [string]: a sequence of 8-bit characters.
      The corpus and the curated lists are ASCII text.  The primitives of
      [Js] are those of JavaScript on ASCII characters (codes below 128);
      characters above 127 are carried along unchanged, neither whitespace
      nor letters here, although JavaScript knows whitespace and letters
      beyond ASCII.  A statement that depends on the whitespace or on the
      case of such characters is therefore made for ASCII text, under
      [isAsciiChar] or [isAscii].
    - A [Set<string>] that is only queried with [has], [add], [delete],
      [clear] and [size] is a [gset string].
    - [Math.floor(Math.random() * n)] is an index below [n]: the draw is a
      natural number supplied from outside, reduced modulo [n].
    - [Date.now()] is a number supplied from outside.
    - The dictionary API is a function from the request to its response. *)

From Stdlib Require Import ZArith Ascii String List Bool Lia.
From Stdlib Require QArith.
From stdpp Require Import base decidable option list strings gmap.

Local Open Scope string_scope.

(* [set_solver] clears hypotheses by names that need not exist. *)
#[local] Set Warnings "-clear-no-such-hyp".

(* ===================================================================== *)
(** ** JavaScript string primitives *)
(* ===================================================================== *)

Module Js.

(** Code of a character. *)
Definition code (c : ascii) : N := N_of_ascii c.

(** An ASCII character, and a text of ASCII characters. *)
Definition isAsciiChar (c : ascii) : bool := (code c <? 128)%N.

Fixpoint isAscii (s : string) : bool :=
  match s with
  | EmptyString => true
  | String c r => isAsciiChar c && isAscii r
  end.

(** [\s] of a regular expression and the characters removed by
    [String.prototype.trim], among the ASCII characters: TAB, LF, VT, FF,
    CR and the space.  (JavaScript also counts U+00A0 and other characters
    beyond ASCII.) *)
Definition isSpace (c : ascii) : bool :=
  ((9 <=? code c)%N && (code c <=? 13)%N) || (code c =? 32)%N.

(** Line terminators, which [.] of a regular expression does not match. *)
Definition isLineTerminator (c : ascii) : bool :=
  (code c =? 10)%N || (code c =? 13)%N.

(** The letters of ASCII, and their case maps: on an ASCII character,
    what [toUpperCase] and [toLowerCase] do.  (JavaScript also maps the
    letters beyond ASCII, some of them to more than one character.) *)
Definition isLower (c : ascii) : bool :=
  (97 <=? code c)%N && (code c <=? 122)%N.

Definition isUpper (c : ascii) : bool :=
  (65 <=? code c)%N && (code c <=? 90)%N.

Definition upperChar (c : ascii) : ascii :=
  if isLower c then ascii_of_N (code c - 32) else c.

Definition lowerChar (c : ascii) : ascii :=
  if isUpper c then ascii_of_N (code c + 32) else c.

Fixpoint mapChars (f : ascii -> ascii) (s : string) : string :=
  match s with
  | EmptyString => EmptyString
  | String c r => String (f c) (mapChars f r)
  end.

(** [s.toUpperCase()] and [s.toLowerCase()]. *)
Definition toUpperCase (s : string) : string := mapChars upperChar s.
Definition toLowerCase (s : string) : string := mapChars lowerChar s.

(** [s.trim()]: leading, then trailing whitespace removed. *)
Fixpoint trimStart (s : string) : string :=
  match s with
  | EmptyString => EmptyString
  | String c r => if isSpace c then trimStart r else s
  end.

Definition isEmpty (s : string) : bool :=
  match s with EmptyString => true | String _ _ => false end.

Fixpoint trimEnd (s : string) : string :=
  match s with
  | EmptyString => EmptyString
  | String c r =>
      let r' := trimEnd r in
      if isSpace c && isEmpty r' then EmptyString else String c r'
  end.

Definition trim (s : string) : string := trimEnd (trimStart s).

(** [arr.includes(x)] on an array of strings. *)
Definition includes (arr : list string) (x : string) : bool :=
  existsb (String.eqb x) arr.

End Js.

(* ===================================================================== *)
(** ** [WordService.cleanDefinition] *)
(* ===================================================================== *)

Module Clean.
Import Js.

Definition isOpen (c : ascii) : bool := Ascii.eqb c "("%char.
Definition isClose (c : ascii) : bool := Ascii.eqb c ")"%char.
Definition isDot (c : ascii) : bool := Ascii.eqb c "."%char.

(** Is there a closing parenthesis in [s]? *)
Fixpoint hasClose (s : string) : bool :=
  match s with
  | EmptyString => false
  | String c r => isClose c || hasClose r
  end.

(** [.replace(/\([^)]*\)/g, '')].  The scan is outside a match
    ([inside = false]) or inside one.  Outside, a match starts at an
    opening parenthesis exactly when a closing one follows somewhere
    ([[^)]*] accepts every other character, newlines included); the match
    then ends at the first closing parenthesis. *)
Fixpoint stripFrom (inside : bool) (s : string) : string :=
  match s with
  | EmptyString => EmptyString
  | String c r =>
      if inside then
        if isClose c then stripFrom false r else stripFrom true r
      else if isOpen c && hasClose r then stripFrom true r
      else String c (stripFrom false r)
  end.

Definition stripParens (s : string) : string := stripFrom false s.

(** [.replace(/\s+/g, ' ')]: [inRun] tells that the previous character
    was whitespace, already replaced by the single space. *)
Fixpoint collapseFrom (inRun : bool) (s : string) : string :=
  match s with
  | EmptyString => EmptyString
  | String c r =>
      if isSpace c then
        if inRun then collapseFrom true r
        else String " "%char (collapseFrom true r)
      else String c (collapseFrom false r)
  end.

Definition collapseSpaces (s : string) : string := collapseFrom false s.

(** [.replace(/^./, str => str.toUpperCase())]: without the [m] flag [^]
    is the start of the input, and [.] refuses a line terminator. *)
Definition capitalizeFirst (s : string) : string :=
  match s with
  | EmptyString => EmptyString
  | String c r => if isLineTerminator c then s else String (upperChar c) r
  end.

(** [.replace(/\.?$/, '.')]: no [g] flag, so only the leftmost match is
    replaced; [$] is the end of the input.  The leftmost match is the
    final period when there is one, and the empty string at the end
    otherwise. *)
Fixpoint ensurePeriod (s : string) : string :=
  match s with
  | EmptyString => "."
  | String c r =>
      if isDot c && isEmpty r then "." else String c (ensurePeriod r)
  end.

(** The transform, in the order of the source. *)
Definition cleanDefinition (definition : string) : string :=
  trim (ensurePeriod (capitalizeFirst (collapseSpaces (stripParens definition)))).

(** *** Observations on a cleaned text *)

(** The pattern [\([^)]*\)] occurs in [s]. *)
Fixpoint hasAside (s : string) : bool :=
  match s with
  | EmptyString => false
  | String c r => (isOpen c && hasClose r) || hasAside r
  end.

(** Two adjacent whitespace characters occur in [s]. *)
Fixpoint hasSpaceRun (s : string) : bool :=
  match s with
  | EmptyString => false
  | String c r =>
      match r with
      | EmptyString => false
      | String d _ => (isSpace c && isSpace d) || hasSpaceRun r
      end
  end.

Fixpoint endsWithPeriod (s : string) : bool :=
  match s with
  | EmptyString => false
  | String c r => if isEmpty r then isDot c else endsWithPeriod r
  end.


Definition firstChar (s : string) : option ascii :=
  match s with EmptyString => None | String c _ => Some c end.

Definition startsWithSpace (s : string) : bool :=
  match s with EmptyString => false | String c _ => isSpace c end.


(** The first character is a lowercase letter. *)
Definition startsLower (s : string) : bool :=
  match s with EmptyString => false | String c _ => isLower c end.

(** The parentheses of a text, in order: all that [hasClose] and
    [hasAside] look at. *)
Fixpoint skeleton (s : string) : string :=
  match s with
  | EmptyString => EmptyString
  | String c r =>
      if isOpen c || isClose c then String c (skeleton r) else skeleton r
  end.

(** Every whitespace character of the text is the space. *)
Fixpoint plainSpaces (s : string) : bool :=
  match s with
  | EmptyString => true
  | String c r => (negb (isSpace c) || Ascii.eqb c " "%char) && plainSpaces r
  end.


End Clean.

(* ===================================================================== *)
(** ** The [Word] record shared by the two services *)
(* ===================================================================== *)

Record Word := mkWord {
  id : Z;
  word : string;
  definition : string;
  difficulty : string;
  category : string
}.

(** JavaScript truthiness of a [string | null]: [null] and the empty string
    are falsy. *)
Definition truthy (o : option string) : bool :=
  match o with
  | Some s => negb (Js.isEmpty s)
  | None => false
  end.

(* ===================================================================== *)
(** ** [server/wordService.ts]: the heuristic, API-backed service *)
(* ===================================================================== *)

Module WordService.
Import Js.

Definition commonWords : list string :=
  ["THE"; "AND"; "FOR"; "ARE"; "BUT"; "NOT"; "YOU"; "ALL"; "CAN"; "HER";
   "WAS"; "ONE"; "OUR"; "HAD"; "BY"; "WORD"; "WHAT"; "SAID"; "EACH";
   "WHICH"; "DO"; "HOW"; "THEIR"; "IF"; "WILL"; "UP"; "OTHER"; "ABOUT";
   "OUT"; "MANY"; "THEN"; "THEM"; "THESE"; "SO"; "SOME"; "HER"; "WOULD";
   "MAKE"; "LIKE"; "INTO"; "HIM"; "HAS"; "TWO"; "MORE"; "GO"; "NO"; "WAY";
   "COULD"; "MY"; "THAN"; "FIRST"; "BEEN"; "CALL"; "WHO"; "OIL"; "ITS";
   "NOW"; "FIND"; "LONG"; "DOWN"; "DAY"; "DID"; "GET"; "COME"; "MADE";
   "MAY"; "PART"].

Definition categorizeWordDifficulty (w : string) : string :=
  let length := String.length w in
  if includes commonWords (toUpperCase w) || (length <=? 5)%nat then "easy"
  else if (length <=? 8)%nat then "medium"
  else "hard".

Definition CURATED_WORDS : list string := [
  (* Basic everyday words *)
  "HOUSE"; "WATER"; "LIGHT"; "WORLD"; "MUSIC"; "PLANT"; "SMILE"; "DREAM"; "PEACE"; "TRUTH";
  "FAMILY"; "FRIEND"; "HAPPY"; "LOVE"; "TIME"; "LIFE"; "WORK"; "SCHOOL"; "BOOK"; "STORY";
  "NATURE"; "GARDEN"; "FLOWER"; "TREE"; "CLOUD"; "RAIN"; "WIND"; "FIRE"; "EARTH"; "SKY";
  (* Intermediate vocabulary *)
  "ADVENTURE"; "BEAUTIFUL"; "CREATIVE"; "EDUCATION"; "FANTASTIC"; "GENEROUS"; "HAPPINESS";
  "IMPORTANT"; "KNOWLEDGE"; "WONDERFUL"; "MOUNTAIN"; "SUNSHINE"; "FRIENDSHIP"; "BUTTERFLY";
  "JOURNEY"; "EXPLORE"; "DISCOVER"; "FREEDOM"; "COURAGE"; "WISDOM"; "MEMORY"; "PASSION";
  "BALANCE"; "HARMONY"; "COMFORT"; "ENERGY"; "GROWTH"; "HEALTH"; "SPIRIT"; "GENTLE";
  (* Advanced vocabulary *)
  "MAGNIFICENT"; "SPECTACULAR"; "EXTRAORDINARY"; "FASCINATING"; "INCREDIBLE"; "BRILLIANT";
  "OUTSTANDING"; "REMARKABLE"; "PHENOMENAL"; "EXCEPTIONAL"; "MYSTERIOUS"; "ENCHANTING";
  "SOPHISTICATED"; "ELABORATE"; "INTRICATE"; "COMPLEX"; "PROFOUND"; "SIGNIFICANT"; "ULTIMATE";
  "ESSENTIAL"; "FUNDAMENTAL"; "COMPREHENSIVE"; "EXTENSIVE"; "INTENSIVE"; "PROGRESSIVE";
  (* Sophisticated vocabulary *)
  "SERENDIPITY"; "EPHEMERAL"; "WANDERLUST"; "NOSTALGIA"; "TRANQUIL"; "LUMINOUS"; "RESILIENCE";
  "QUINTESSENTIAL"; "MELANCHOLY"; "SYMPHONY"; "SKYSCRAPER"; "ELOQUENT"; "INDIGENOUS"; "UBIQUITOUS";
  "MAGNIFICENT"; "CONTEMPLATION"; "PERSEVERANCE"; "EUPHEMISM"; "PARADOX"; "CATALYST"; "PARADIGM";
  "PINNACLE"; "TRAJECTORY"; "MOMENTUM"; "CATALYST"; "BENCHMARK"; "EQUILIBRIUM"; "TRANSCENDENT";
  (* Interesting and unique words *)
  "CACOPHONY"; "EUPHORIA"; "LABYRINTH"; "METAMORPHOSIS"; "RENAISSANCE"; "SOLITUDE"; "ZENITH";
  "AMBIGUOUS"; "BENEVOLENT"; "CONSCIENTIOUS"; "DILIGENT"; "ECCENTRIC"; "FLAMBOYANT"; "GREGARIOUS";
  "KALEIDOSCOPE"; "MIRAGE"; "OASIS"; "PRISM"; "RIPPLE"; "SHIMMER"; "TWILIGHT"; "VELVET";
  "WHISPER"; "ZEPHYR"; "BLOSSOM"; "CASCADE"; "DAZZLE"; "EMBRACE"; "FLUTTER"; "GLIMMER";
  (* Nature and science *)
  "PHOTOSYNTHESIS"; "ECOSYSTEM"; "BIODIVERSITY"; "CONSTELLATION"; "PRECIPITATION"; "EVAPORATION";
  "CRYSTALLINE"; "AURORA"; "GRAVITATIONAL"; "MOLECULAR"; "ELECTROMAGNETIC"; "REVOLUTIONARY";
  "ATMOSPHERIC"; "GEOLOGICAL"; "ASTRONOMICAL"; "MICROSCOPIC"; "MACROSCOPIC"; "QUANTUM";
  "CHEMISTRY"; "BIOLOGY"; "PHYSICS"; "MATHEMATICS"; "GEOMETRY"; "ALGEBRA"; "CALCULUS";
  "NUCLEUS"; "ELECTRON"; "PROTON"; "NEUTRON"; "MOLECULE"; "ATOM"; "ELEMENT"; "COMPOUND";
  (* Abstract concepts and academics *)
  "PHILOSOPHY"; "PSYCHOLOGY"; "ANTHROPOLOGY"; "ARCHAEOLOGY"; "ARCHITECTURE"; "DEMOCRACY";
  "CAPITALISM"; "SOCIALISM"; "NATIONALISM"; "GLOBALIZATION"; "TECHNOLOGICAL"; "INNOVATION";
  "LITERATURE"; "LINGUISTICS"; "SOCIOLOGY"; "ECONOMICS"; "POLITICS"; "HISTORY"; "GEOGRAPHY";
  "THEOLOGY"; "METHODOLOGY"; "EPISTEMOLOGY"; "ONTOLOGY"; "DIALECTIC"; "SYNTHESIS"; "ANALYSIS";
  "HYPOTHESIS"; "THEORY"; "CONCEPT"; "PRINCIPLE"; "DOCTRINE"; "IDEOLOGY"; "PARADIGM";
  (* Emotions and personality traits *)
  "COMPASSIONATE"; "EMPATHETIC"; "OPTIMISTIC"; "PESSIMISTIC"; "CHARISMATIC"; "INTROVERTED";
  "EXTROVERTED"; "AMBITIOUS"; "PERSISTENT"; "SPONTANEOUS"; "METHODICAL"; "ANALYTICAL";
  "ENTHUSIASTIC"; "PASSIONATE"; "DETERMINED"; "CONFIDENT"; "HUMBLE"; "GENEROUS"; "PATIENT";
  "COURAGEOUS"; "ADVENTUROUS"; "CURIOUS"; "CREATIVE"; "INNOVATIVE"; "INSPIRING"; "MOTIVATING";
  (* Arts and culture *)
  "MASTERPIECE"; "VIRTUOSO"; "RENAISSANCE"; "BAROQUE"; "IMPRESSIONISM"; "SURREALISM";
  "CONTEMPORARY"; "AVANT-GARDE"; "CLASSICAL"; "ROMANTIC"; "MINIMALIST"; "EXPRESSIONISM";
  "SCULPTURE"; "PAINTING"; "LITERATURE"; "POETRY"; "MUSIC"; "DANCE"; "THEATER"; "CINEMA";
  "ARCHITECTURE"; "DESIGN"; "FASHION"; "PHOTOGRAPHY"; "ILLUSTRATION"; "CALLIGRAPHY";
  (* Technology and modern life *)
  "ALGORITHM"; "ARTIFICIAL"; "INTELLIGENCE"; "COMPUTER"; "DIGITAL"; "INTERNET"; "NETWORK";
  "SOFTWARE"; "HARDWARE"; "PROGRAMMING"; "DATABASE"; "SECURITY"; "ENCRYPTION"; "BLOCKCHAIN";
  "VIRTUAL"; "AUGMENTED"; "REALITY"; "SIMULATION"; "AUTOMATION"; "ROBOTICS"; "MACHINE";
  "INTERFACE"; "PLATFORM"; "SYSTEM"; "FRAMEWORK"; "PROTOCOL"; "ARCHITECTURE"; "INFRASTRUCTURE";
  (* Food and cooking *)
  "CUISINE"; "GOURMET"; "DELICIOUS"; "FLAVOR"; "AROMA"; "TEXTURE"; "INGREDIENT"; "RECIPE";
  "CULINARY"; "CHEF"; "KITCHEN"; "RESTAURANT"; "BANQUET"; "FEAST"; "APPETIZER"; "DESSERT";
  "BEVERAGE"; "COCKTAIL"; "VINTAGE"; "EXOTIC"; "SPICE"; "HERB"; "SEASONING"; "MARINADE";
  (* Travel and geography *)
  "DESTINATION"; "VOYAGE"; "EXPEDITION"; "PILGRIMAGE"; "EXCURSION"; "SAFARI"; "CRUISE";
  "CONTINENT"; "ISLAND"; "PENINSULA"; "VALLEY"; "PLATEAU"; "DESERT"; "FOREST"; "JUNGLE";
  "METROPOLIS"; "VILLAGE"; "SUBURB"; "DISTRICT"; "NEIGHBORHOOD"; "LANDMARK"; "MONUMENT";
  "HERITAGE"; "CULTURE"; "TRADITION"; "CUSTOMS"; "FESTIVAL"; "CELEBRATION"; "CEREMONY";
  (* Business and economics *)
  "ENTREPRENEUR"; "INNOVATION"; "INVESTMENT"; "REVENUE"; "PROFIT"; "MARKET"; "ECONOMY";
  "STRATEGY"; "MANAGEMENT"; "LEADERSHIP"; "ORGANIZATION"; "CORPORATION"; "ENTERPRISE";
  "PRODUCTIVITY"; "EFFICIENCY"; "QUALITY"; "EXCELLENCE"; "PERFORMANCE"; "ACHIEVEMENT";
  "COMPETITION"; "COLLABORATION"; "PARTNERSHIP"; "NETWORKING"; "NEGOTIATION"; "CONTRACT";
  (* Health and wellness *)
  "WELLNESS"; "VITALITY"; "NUTRITION"; "EXERCISE"; "MEDITATION"; "MINDFULNESS"; "BALANCE";
  "STRENGTH"; "FLEXIBILITY"; "ENDURANCE"; "IMMUNITY"; "HEALING"; "THERAPY"; "RECOVERY";
  "PREVENTION"; "DIAGNOSIS"; "TREATMENT"; "MEDICINE"; "PHARMACY"; "HOSPITAL"; "CLINIC";
  (* Time and seasons *)
  "CHRONOLOGY"; "DURATION"; "MOMENT"; "INSTANT"; "ETERNITY"; "TEMPORAL"; "SEASONAL";
  "SPRING"; "SUMMER"; "AUTUMN"; "WINTER"; "DAWN"; "DUSK"; "MIDNIGHT"; "NOON";
  "CENTURY"; "DECADE"; "MILLENNIUM"; "ANNIVERSARY"; "BIRTHDAY"; "HOLIDAY"; "WEEKEND";
  (* Communication and language *)
  "LANGUAGE"; "VOCABULARY"; "GRAMMAR"; "SYNTAX"; "SEMANTICS"; "PRONUNCIATION"; "ACCENT";
  "DIALECT"; "CONVERSATION"; "DIALOGUE"; "MONOLOGUE"; "SPEECH"; "PRESENTATION"; "LECTURE";
  "DISCUSSION"; "DEBATE"; "ARGUMENT"; "PERSUASION"; "RHETORIC"; "ELOQUENCE"; "ARTICULATION"
].

(** [Object.values(DYNAMIC_WORD_POOLS)], in the order of the keys. *)
Definition DYNAMIC_WORD_POOLS : list (list string) := [
  (* animals *)
  ["ELEPHANT"; "GIRAFFE"; "PENGUIN"; "DOLPHIN"; "OCTOPUS"; "KANGAROO"; "CHAMELEON"; "RHINOCEROS"];
  (* colors *)
  ["CRIMSON"; "EMERALD"; "SAPPHIRE"; "AMBER"; "VIOLET"; "TURQUOISE"; "MAGENTA"; "BURGUNDY"];
  (* professions *)
  ["ARCHITECT"; "ENGINEER"; "SCIENTIST"; "ARTIST"; "MUSICIAN"; "TEACHER"; "DOCTOR"; "LAWYER"];
  (* countries *)
  ["AUSTRALIA"; "CANADA"; "BRAZIL"; "GERMANY"; "JAPAN"; "ITALY"; "SPAIN"; "FRANCE"];
  (* weather *)
  ["THUNDERSTORM"; "HURRICANE"; "BLIZZARD"; "TORNADO"; "RAINBOW"; "LIGHTNING"; "DRIZZLE"; "HAIL"];
  (* sports *)
  ["BASKETBALL"; "FOOTBALL"; "TENNIS"; "SWIMMING"; "CYCLING"; "MARATHON"; "GYMNASTICS"; "VOLLEYBALL"];
  (* instruments *)
  ["PIANO"; "GUITAR"; "VIOLIN"; "TRUMPET"; "SAXOPHONE"; "DRUMS"; "FLUTE"; "CELLO"];
  (* mythology *)
  ["PHOENIX"; "DRAGON"; "UNICORN"; "CENTAUR"; "GRIFFIN"; "PEGASUS"; "HYDRA"; "CHIMERA"]
].

(** The list local to [getRandomDictionaryWord]. *)
Definition randomWords : list string :=
  ["ANCIENT"; "BRIDGE"; "CASTLE"; "DOLPHIN"; "ELEPHANT"; "FOREST"; "GALAXY";
   "HARBOR"; "ISLAND"; "JUNGLE"; "KITCHEN"; "LIBRARY"; "MEADOW"; "NATURE";
   "OCEAN"; "PALACE"; "QUEEN"; "RIVER"; "SUNSET"; "TEMPLE"; "UMBRELLA";
   "VILLAGE"; "WINDOW"; "YELLOW"; "ZEBRA"; "MARBLE"; "CRYSTAL"; "THUNDER";
   "BUTTERFLY"; "MOUNTAIN"; "DIAMOND"; "SILVER"; "GOLDEN"; "PURPLE"; "ORANGE"].

(** The list local to [getFallbackWord]: word and inline definition. *)
Definition fallbackWords : list (string * string) :=
  [("MAGNIFICENT",
    "Extremely beautiful, elaborate, or impressive; inspiring great admiration or awe.");
   ("SERENDIPITY",
    "The occurrence and development of events by chance in a happy or beneficial way; a pleasant surprise.");
   ("WANDERLUST",
    "A strong desire to travel and explore the world; an irresistible urge to wander and discover new places.")].

(** *** The dictionary API *)

(** One element of [meanings]: [definitions] may be absent; each
    definition is its [definition] text. *)
Record Meaning := mkMeaning {
  partOfSpeech : string;
  definitions : option (list string)
}.

(** One element of the response array: [meanings] may be absent. *)
Record ApiEntry := mkApiEntry {
  entryWord : string;
  meanings : option (list Meaning)
}.

(** What [fetch] followed by [response.json()] can do: reject (network
    error), or answer with a status and a body; the body is [None] when it
    is not the JSON the interface describes, in which case reading it
    throws. *)
Inductive Response :=
| NetworkError
| HttpResponse (status : Z) (body : option (list ApiEntry)).

(** [response.ok]. *)
Definition ok (status : Z) : bool := ((200 <=? status) && (status <=? 299))%Z.

(** The loop [for (const meaning of meanings)]: the first definition of
    each meaning is cleaned and returned when its length is strictly
    between 20 and 200. *)
Fixpoint firstUsable (ms : list Meaning) : option string :=
  match ms with
  | [] => None
  | meaning :: rest =>
      match definitions meaning with
      | Some (d :: _) =>
          let cleanDefinition := Clean.cleanDefinition d in
          if ((20 <? String.length cleanDefinition)%nat
              && (String.length cleanDefinition <? 200)%nat)
          then Some cleanDefinition
          else firstUsable rest
      | _ => firstUsable rest
      end
  end.

(** The body of [fetchDefinitionFromAPI] once the response is there; the
    [catch] turns every exception into [null]. *)
Definition definitionOf (r : Response) : option string :=
  match r with
  | NetworkError => None
  | HttpResponse status body =>
      if negb (ok status) then None
      else match body with
           | None => None
           | Some data =>
               match data with
               | entry :: _ =>
                   match meanings entry with
                   | Some (m :: ms) => firstUsable (m :: ms)
                   | _ => None
                   end
               | [] => None
               end
           end
  end.

(** *** The world the service runs in *)

(** What the service does not control: the values of [Math.random] (the
    [k]-th draw, as a source of indices), the dictionary API (the response
    to the [k]-th request, for the word asked) and the clock. *)
Record Env := mkEnv {
  random : nat -> nat;
  api : nat -> string -> Response;
  now : Z
}.

(** The instance field [usedWords], the number of draws made so far and
    the requests sent so far (most recent last). *)
Record World := mkWorld {
  usedWords : gset string;
  draws : nat;
  requests : list string
}.

(** Computations of the service: a state monad over [World]. *)
Definition M (A : Type) : Type := World -> A * World.

Definition ret {A} (a : A) : M A := fun w => (a, w).

Definition bind {A B} (m : M A) (k : A -> M B) : M B :=
  fun w => let (a, w') := m w in k a w'.

Notation "x <- m ;; k" := (bind m (fun x => k))
  (at level 100, m at next level, right associativity).
Notation "m ;;; k" := (bind m (fun _ => k))
  (at level 100, right associativity).

Definition getUsed : M (gset string) := fun w => (usedWords w, w).

Definition setUsed (u : gset string) : M unit :=
  fun w => (tt, mkWorld u (draws w) (requests w)).

(** [Math.floor(Math.random() * n)]. *)
Definition randomIndex (e : Env) (n : nat) : M nat :=
  fun w => (random e (draws w) mod n,
            mkWorld (usedWords w) (S (draws w)) (requests w)).

(** [arr[Math.floor(Math.random() * arr.length)]]. *)
Definition randomElement (e : Env) (arr : list string) : M (option string) :=
  i <- randomIndex e (List.length arr) ;; ret (nth_error arr i).

Definition fetchDefinitionFromAPI (e : Env) (w : string) : M (option string) :=
  fun st =>
    let request := toLowerCase w in
    (definitionOf (api e (List.length (requests st)) request),
     mkWorld (usedWords st) (draws st) (requests st ++ [request])).

Definition getCuratedWord (e : Env) : M (option string) :=
  used <- getUsed ;;
  let availableWords := filter (fun w => w ∉ used) CURATED_WORDS in
  if (List.length availableWords =? 0)%nat then ret None
  else randomElement e availableWords.

Definition getDynamicWord (e : Env) : M (option string) :=
  used <- getUsed ;;
  let allDynamicWords := concat DYNAMIC_WORD_POOLS in
  let availableDynamicWords := filter (fun w => w ∉ used) allDynamicWords in
  if (List.length availableDynamicWords =? 0)%nat then ret None
  else randomElement e availableDynamicWords.

Definition getRandomDictionaryWord (e : Env) : M (option string) :=
  used <- getUsed ;;
  let availableRandomWords := filter (fun w => w ∉ used) randomWords in
  if (List.length availableRandomWords =? 0)%nat then
    setUsed ∅ ;;;
    randomElement e randomWords
  else randomElement e availableRandomWords.

Definition getFallbackWord (e : Env) : M Word :=
  i <- randomIndex e (List.length fallbackWords) ;;
  let randomFallback := nth i fallbackWords ("", "") in
  ret (mkWord (now e) (fst randomFallback) (snd randomFallback)
              (categorizeWordDifficulty (fst randomFallback)) "general").

(** [return this.getFallbackWord()], the last statement of
    [getRandomWordWithDefinition]. *)
Definition finalFallback (e : Env) : M (option Word) :=
  w <- getFallbackWord e ;; ret (Some w).

Definition getRandomWordWithDefinition (e : Env) : M (option Word) :=
  wordToTry <- getCuratedWord e ;;
  wordToTry <- (if negb (truthy wordToTry) then getDynamicWord e
                else ret wordToTry) ;;
  wordToTry <- (if negb (truthy wordToTry) then getRandomDictionaryWord e
                else ret wordToTry) ;;
  match wordToTry with
  | Some candidate =>
      if truthy wordToTry then
        definition <- fetchDefinitionFromAPI e candidate ;;
        match definition with
        | Some text =>
            if truthy definition then
              used <- getUsed ;;
              setUsed ({[candidate]} ∪ used) ;;;
              ret (Some (mkWord (now e) (toUpperCase candidate) text
                                (categorizeWordDifficulty candidate)
                                "general"))
            else finalFallback e
        | None => finalFallback e
        end
      else finalFallback e
  | None => finalFallback e
  end.

(** The object [getWordStats()] returns. *)
Record Stats := mkStats {
  totalCurated : nat;
  totalDynamic : nat;
  used : nat
}.

Definition getWordStats : M Stats :=
  u <- getUsed ;;
  let totalDynamic := List.length (concat DYNAMIC_WORD_POOLS) in
  ret (mkStats (List.length CURATED_WORDS) totalDynamic (size u)).

(** [resetUsedWords()]. *)
Definition resetUsedWords : M unit := setUsed ∅.

End WordService.

(* ===================================================================== *)
(** ** [server/enhancedWordService.ts]: the frequency-database service *)
(* ===================================================================== *)

Module EnhancedWordService.
Import Js.

(** An entry of [WORD_DATABASE].  [category] may be missing. *)
Record DbWord := mkDbWord {
  db_word : string;
  db_definition : string;
  frequency_rank : Z;
  db_difficulty : string;
  db_category : option string
}.

(** [getFallbackWordList()], the database used when no file is found. *)
Definition getFallbackWordList : list DbWord :=
  [ mkDbWord "HOUSE" "A building for human habitation." 150 "common"
             (Some "general");
    mkDbWord "WATER"
             "A transparent liquid that forms rivers, lakes, oceans, and rain."
             95 "common" (Some "general");
    mkDbWord "SCHOOL" "An institution for educating children." 360 "common"
             (Some "general") ].

Definition mapDifficulty (dbDifficulty : string) : string :=
  if String.eqb dbDifficulty "common" then "easy"
  else if String.eqb dbDifficulty "moderate" then "medium"
  else if String.eqb dbDifficulty "expert" then "hard"
  else "medium".

(** [c || 'general']. *)
Definition orGeneral (c : option string) : string :=
  match c with
  | Some s => if isEmpty s then "general" else s
  | None => "general"
  end.

(** The object literal built from the chosen database entry. *)
Definition toWord (now : Z) (randomWord : DbWord) : Word :=
  mkWord now (db_word randomWord) (db_definition randomWord)
         (mapDifficulty (db_difficulty randomWord))
         (orGeneral (db_category randomWord)).

(** A call returns a value and leaves the instance field [usedWords] in
    a new state, or it exhausts the call stack. *)
Inductive Outcome :=
| Returned (result : option Word) (usedWords : gset string)
| StackExhausted.

(** [availableWords[Math.floor(Math.random() * availableWords.length)]]
    on an array whose first element is [first]. *)
Definition randomOf (first : DbWord) (availableWords : list DbWord)
           (draw : nat) : DbWord :=
  nth (draw mod List.length availableWords) availableWords first.

(** The tail of the three selection methods: [usedWords.add] of the chosen
    word, and the object returned. *)
Definition dispense (now : Z) (randomWord : DbWord) (usedWords : gset string)
  : option Word * gset string :=
  (Some (toWord now randomWord), {[db_word randomWord]} ∪ usedWords).

Definition returned (r : option Word * gset string) : Outcome :=
  Returned (fst r) (snd r).

Section Database.

(** The module-level array, loaded once at start. *)
Variable WORD_DATABASE : list DbWord.

Definition byDifficulty (d : string) : list DbWord :=
  take 200 (filter (fun w => db_difficulty w = d) WORD_DATABASE).

Definition WORDS_BY_DIFFICULTY_easy : list DbWord := byDifficulty "common".
Definition WORDS_BY_DIFFICULTY_medium : list DbWord := byDifficulty "moderate".
Definition WORDS_BY_DIFFICULTY_hard : list DbWord := byDifficulty "expert".

(** The [switch] of [getWordByDifficulty] and [getSmartWordSelection]. *)
Definition wordPool (difficulty : string) : list DbWord :=
  if String.eqb difficulty "easy" then WORDS_BY_DIFFICULTY_easy
  else if String.eqb difficulty "medium" then WORDS_BY_DIFFICULTY_medium
  else if String.eqb difficulty "hard" then WORDS_BY_DIFFICULTY_hard
  else WORD_DATABASE.

(** [pool.filter(word => !this.usedWords.has(word.word))]. *)
Definition available (pool : list DbWord) (usedWords : gset string)
  : list DbWord :=
  filter (fun w => db_word w ∉ usedWords) pool.

(** [wordPool.forEach(word => this.usedWords.delete(word.word))]. *)
Definition deleteAll (pool : list DbWord) (usedWords : gset string)
  : gset string :=
  foldl (fun used w => used ∖ {[db_word w]}) usedWords pool.

(** [getRandomWordWithDefinition()].  [depth] is the number of stack
    frames left; the method calls itself after the reset. *)
Fixpoint getRandomWordWithDefinition (depth : nat) (draw : nat) (now : Z)
         (usedWords : gset string) : Outcome :=
  match depth with
  | O => StackExhausted
  | S depth' =>
      let availableWords := available WORD_DATABASE usedWords in
      match availableWords with
      | [] => getRandomWordWithDefinition depth' draw now ∅
      | first :: _ =>
          returned (dispense now (randomOf first availableWords draw)
                             usedWords)
      end
  end.

(** [getWordByDifficulty(difficulty)]. *)
Fixpoint getWordByDifficulty (depth : nat) (difficulty : string)
         (draw : nat) (now : Z) (usedWords : gset string) : Outcome :=
  match depth with
  | O => StackExhausted
  | S depth' =>
      let pool := wordPool difficulty in
      let availableWords := available pool usedWords in
      match availableWords with
      | [] =>
          getWordByDifficulty depth' difficulty draw now
                              (deleteAll pool usedWords)
      | first :: _ =>
          returned (dispense now (randomOf first availableWords draw)
                             usedWords)
      end
  end.

(** [unseenWords] of [getSmartWordSelection]. *)
Definition unseen (pool : list DbWord) (seenWords : list string)
           (usedWords : gset string) : list DbWord :=
  filter (fun w => (toUpperCase (db_word w) ∉ seenWords)
                   ∧ (db_word w ∉ usedWords)) pool.

(** What a call of [getSmartWordSelection] leaves behind: the value
    returned, the instance field [usedWords] and the array the caller
    passed in. *)
Record SmartResult := mkSmartResult {
  smartWord : option Word;
  smartUsed : gset string;
  smartSeen : list string
}.

Definition smartOf (r : option Word * gset string) (seenWords : list string)
  : SmartResult :=
  mkSmartResult (fst r) (snd r) seenWords.

(** [getSmartWordSelection(seenWords, difficulty)]: no recursion, no
    write to [seenWords]. *)
Definition getSmartWordSelection (seenWords : list string)
           (difficulty : string) (draw : nat) (now : Z)
           (usedWords : gset string) : SmartResult :=
  let pool := wordPool difficulty in
  let unseenWords := unseen pool seenWords usedWords in
  match unseenWords with
  | [] =>
      let usedWords := (∅ : gset string) in
      let availableWords := available pool usedWords in
      match availableWords with
      | [] => mkSmartResult None usedWords seenWords
      | first :: _ =>
          smartOf (dispense now (randomOf first availableWords draw)
                            usedWords) seenWords
      end
  | first :: _ =>
      smartOf (dispense now (randomOf first unseenWords draw) usedWords)
              seenWords
  end.

(** [resetUsedWords()]. *)
Definition resetUsedWords (usedWords : gset string) : gset string := ∅.

(** The index the constructor builds:
    [WORD_DATABASE.forEach(word => this.wordIndex.set(word.word, word))]. *)
Definition wordIndex : gmap string DbWord :=
  foldl (fun index w => <[db_word w := w]> index) ∅ WORD_DATABASE.

(** [getWordByText(word)]. *)
Definition getWordByText (now : Z) (w : string) : option Word :=
  match wordIndex !! toUpperCase w with
  | None => None
  | Some dbWord => Some (toWord now dbWord)
  end.

(** The object [getWordStats()] returns. *)
Record Stats := mkStats {
  total : nat;
  common : nat;
  moderate : nat;
  expert : nat;
  used : nat;
  database_version : string;
  source : string
}.

Definition getWordStats (usedWords : gset string) : Stats :=
  mkStats (List.length WORD_DATABASE)
          (List.length WORDS_BY_DIFFICULTY_easy)
          (List.length WORDS_BY_DIFFICULTY_medium)
          (List.length WORDS_BY_DIFFICULTY_hard)
          (size usedWords)
          "2.0.0"
          "Enhanced COCA Frequency Data + Dictionary API".

(** The objects [getWordsByFrequencyRange] builds: a [Word] whose [id] is
    [Date.now() + Math.random()], a number with a fractional part. *)
Record ListedWord := mkListedWord {
  l_id : QArith_base.Q;
  l_word : string;
  l_definition : string;
  l_difficulty : string;
  l_category : string
}.

Definition toListedWord (id : QArith_base.Q) (dbWord : DbWord) : ListedWord :=
  mkListedWord id (db_word dbWord) (db_definition dbWord)
               (mapDifficulty (db_difficulty dbWord))
               (orGeneral (db_category dbWord)).

(** The entries [filter] keeps in [getWordsByFrequencyRange]. *)
Definition inRange (minRank maxRank : Z) : list DbWord :=
  filter (fun w => (minRank <= frequency_rank w)%Z
                   /\ (frequency_rank w <= maxRank)%Z) WORD_DATABASE.

(** [getWordsByFrequencyRange(minRank, maxRank)] on integer bounds; [ids k]
    is the value of [Date.now() + Math.random()] for the [k]-th entry
    kept. *)
Definition getWordsByFrequencyRange (ids : nat -> QArith_base.Q)
           (minRank maxRank : Z) : list ListedWord :=
  imap (fun k dbWord => toListedWord (ids k) dbWord) (inRange minRank maxRank).

(** The [switch] of [getEducationalWords]. *)
Definition rankRange (level : string) : Z * Z :=
  if String.eqb level "elementary" then (1, 1000)%Z
  else if String.eqb level "intermediate" then (1001, 5000)%Z
  else if String.eqb level "advanced" then (5001, 60000)%Z
  else (1, 60000)%Z.

(** [getEducationalWords(level)]. *)
Definition getEducationalWords (ids : nat -> QArith_base.Q) (level : string)
  : list ListedWord :=
  getWordsByFrequencyRange ids (fst (rankRange level)) (snd (rankRange level)).

End Database.

End EnhancedWordService.

(* ===================================================================== *)
(** ** Notions used to state the properties *)
(* ===================================================================== *)

Module WordServiceSpec.
Import Js WordService.

(** The candidate of a call: the first three steps of
    [getRandomWordWithDefinition], up to the definition fetch. *)
Definition chooseCandidate (e : Env) : M (option string) :=
  wordToTry <- getCuratedWord e ;;
  wordToTry <- (if negb (truthy wordToTry) then getDynamicWord e
                else ret wordToTry) ;;
  (if negb (truthy wordToTry) then getRandomDictionaryWord e
   else ret wordToTry).

(** The response the API gives when the call in world [w] asks for [x]. *)
Definition responseFor (e : Env) (w : World) (x : string) : Response :=
  api e (List.length (requests w)) (toLowerCase x).

(** All words of a list are in the used-words set. *)
Definition exhausted (l : list string) (used : gset string) : Prop :=
  filter (fun x => x ∉ used) l = [].

(** The world after one more draw. *)
Definition tick (w : World) : World :=
  mkWorld (usedWords w) (S (draws w)) (requests w).

(** How the candidate [x] is chosen from the used-words set [used], and the
    set [used1] the choice leaves: from the curated list; from the dynamic
    pools when the curated list is exhausted; from the generic list when
    both are; and from the whole generic list, after the set is cleared,
    when the three are exhausted. *)
Definition chosenBy (used : gset string) (x : string) (used1 : gset string)
  : Prop :=
  ((x ∈ CURATED_WORDS) /\ (x ∉ used) /\ used1 = used)
  \/ (exhausted CURATED_WORDS used
      /\ (x ∈ concat DYNAMIC_WORD_POOLS) /\ (x ∉ used) /\ used1 = used)
  \/ (exhausted CURATED_WORDS used
      /\ exhausted (concat DYNAMIC_WORD_POOLS) used
      /\ (x ∈ randomWords) /\ (x ∉ used) /\ used1 = used)
  \/ (exhausted CURATED_WORDS used
      /\ exhausted (concat DYNAMIC_WORD_POOLS) used
      /\ exhausted randomWords used
      /\ (x ∈ randomWords) /\ used1 = ∅).

(** The [i]-th hardcoded fallback word, as [getFallbackWord] builds it. *)
Definition fallbackAt (now : Z) (i : nat) : Word :=
  let randomFallback := nth i fallbackWords ("", "") in
  mkWord now (fst randomFallback) (snd randomFallback)
         (categorizeWordDifficulty (fst randomFallback)) "general".

Definition isFallback (now : Z) (r : Word) : Prop :=
  r = fallbackAt now 0 \/ r = fallbackAt now 1 \/ r = fallbackAt now 2.

(** A [Word] as the data model describes it: a word in upper case and a
    definition, both not empty, one of the three difficulties. *)
Definition validWord (r : Word) : Prop :=
  word r <> "" /\ toUpperCase (word r) = word r /\ definition r <> ""
  /\ (difficulty r = "easy" \/ difficulty r = "medium"
      \/ difficulty r = "hard").

(** The length band of [fetchDefinitionFromAPI]. *)
Definition inBand (text : string) : bool :=
  ((20 <? String.length text) && (String.length text <? 200))%nat.

(** The failures of the definition lookup: network error, status that is
    not a success, body that cannot be read, no entry, meanings absent or
    empty, and no meaning whose first definition, once cleaned, is in the
    band. *)
Inductive LookupFailure : Response -> Prop :=
| failNetwork : LookupFailure NetworkError
| failStatus status body :
    ok status = false -> LookupFailure (HttpResponse status body)
| failBody status : LookupFailure (HttpResponse status None)
| failNoEntry status : LookupFailure (HttpResponse status (Some []))
| failNoMeanings status entry rest :
    meanings entry = None \/ meanings entry = Some [] ->
    LookupFailure (HttpResponse status (Some (entry :: rest)))
| failBand status entry rest ms :
    meanings entry = Some ms ->
    (forall m d ds, m ∈ ms -> definitions m = Some (d :: ds) ->
                    inBand (Clean.cleanDefinition d) = false) ->
    LookupFailure (HttpResponse status (Some (entry :: rest))).

(** An API that is down, a random source that always draws 0. *)
Definition offline : Env := mkEnv (fun _ => 0) (fun _ _ => NetworkError) 7.

(** A fresh instance. *)
Definition fresh : World := mkWorld ∅ 0 [].

(** An instance that has dispensed every word of the three lists. *)
Definition allUsed : World :=
  mkWorld (list_to_set (CURATED_WORDS ++ concat DYNAMIC_WORD_POOLS
                                      ++ randomWords)) 0 [].

(** An API that answers every request with one entry of one meaning. *)
Definition online : Env :=
  mkEnv (fun _ => 0)
        (fun _ _ =>
           HttpResponse 200
             (Some [mkApiEntry "word"
                      (Some [mkMeaning "noun"
                               (Some ["a building (or a part of one) for people to live in"])])]))
        7.

(** The three lists are exhausted. *)
Definition allExhausted (used : gset string) : Prop :=
  exhausted CURATED_WORDS used
  /\ exhausted (concat DYNAMIC_WORD_POOLS) used
  /\ exhausted randomWords used.

(** The shape of a definition that is returned. *)
Definition wellShaped (text : string) : Prop :=
  inBand text = true /\ Clean.endsWithPeriod text = true
  /\ Clean.hasAside text = false /\ Clean.hasSpaceRun text = false.

(** The difficulty the heuristic gives to a word of [n] characters. *)
Definition byLength (n : nat) : string :=
  if (n <=? 5)%nat then "easy" else if (n <=? 8)%nat then "medium" else "hard".

(** An API that answers 404 for every word. *)
Definition notFound : Env :=
  mkEnv (fun _ => 0) (fun _ _ => HttpResponse 404 None) 7.

End WordServiceSpec.

Module EnhancedSpec.
Import Js EnhancedWordService.

(** The words of a pool. *)
Definition wordsOf (pool : list DbWord) : list string := db_word <$> pool.

(** The wording of the specification for the reset of
    [getWordByDifficulty]: the retry runs on the empty seen-word set. *)
Definition clearsEntirely (DB : list DbWord) (difficulty : string)
           (used : gset string) : Prop :=
  forall depth draw now,
    getWordByDifficulty DB (S depth) difficulty draw now used
    = getWordByDifficulty DB depth difficulty draw now ∅.

(** Every word of the database is in upper case, as the data model of the
    corpus has it. *)
Definition upperCased (DB : list DbWord) : Prop :=
  forall e, e ∈ DB -> toUpperCase (db_word e) = db_word e.

(** A database with one common and one expert word. *)
Definition twoTiers : list DbWord :=
  [ mkDbWord "HOUSE" "A building for human habitation." 150 "common"
             (Some "general");
    mkDbWord "ZEPHYR" "A soft gentle breeze." 15000 "expert" None ].

(** A database whose only word is stored in lower case. *)
Definition lowerCaseCorpus : list DbWord :=
  [ mkDbWord "zephyr" "A soft gentle breeze." 15000 "expert" None ].

End EnhancedSpec.

(* ===================================================================== *)
(** ** [server/storage.ts] and [server/routes.ts]: the callers *)
(* ===================================================================== *)

Module Storage.
Import Js WordService.


(** How a promise settles. *)
Inductive Settled (A : Type) : Type :=
| Fulfilled (a : A)
| Rejected.
Arguments Fulfilled {A} a.
Arguments Rejected {A}.

(** The identifiers bound at the top level of [storage.ts]: its three
    imports ([db]; [eq], [sql]; [wordService]), its class and the instance
    it exports.  The types of its first lines are erased.  The tables of
    [shared/schema.ts] ([users], [words], [userWordHistory],
    [userPreferences]) are not imported. *)
Definition moduleScope : list string :=
  ["db"; "eq"; "sql"; "wordService"; "DatabaseStorage"; "storage"].

(** Reading an identifier: one that is not bound throws a
    [ReferenceError]. *)
Definition isBound (name : string) : bool :=
  existsb (String.eqb name) moduleScope.


(** [getRandomWord()].  [table] is what [db.select().from(words)] would
    answer, [None] when the query rejects; the table is read from the
    identifier [words]. *)
Definition getRandomWord (e : Env) (table : option (list Word))
  : M (Settled (option Word)) :=
  apiWord <- WordService.getRandomWordWithDefinition e ;;
  match apiWord with
  | Some w => ret (Fulfilled (Some w))
  | None =>
      if isBound "words" then
        match table with
        | None => ret Rejected
        | Some wordArray =>
            if (List.length wordArray =? 0)%nat then ret (Fulfilled None)
            else
              randomIndex <- randomIndex e (List.length wordArray) ;;
              ret (Fulfilled (nth_error wordArray randomIndex))
        end
      else ret Rejected
  end.

End Storage.

Module Routes.
Import Js EnhancedWordService.

(** What a handler sends: [res.status(s).json(...)], the status being 200
    when it is not set. *)
Inductive Body :=
| Message (message : string)
| WordJson (w : Word)
| SeenWordsJson (seenWords : list string).

Record Reply := mkReply { status : Z; body : Body }.

Definition internalError : Reply :=
  mkReply 500 (Message "Internal server error").

Section Database.
Variable WORD_DATABASE : list DbWord.

(** [GET /api/words/random] and [GET /api/words/enhanced/random]: the
    [catch] answers 500 when the call overflows the stack. *)
Definition randomRoute (depth draw : nat) (now : Z) (usedWords : gset string)
  : Reply :=
  match EnhancedWordService.getRandomWordWithDefinition
          WORD_DATABASE depth draw now usedWords with
  | Returned None _ => mkReply 404 (Message "No words available")
  | Returned (Some w) _ => mkReply 200 (WordJson w)
  | StackExhausted => internalError
  end.

(** [GET /api/words/enhanced/difficulty/:difficulty]. *)
Definition difficultyRoute (difficulty : string) (depth draw : nat) (now : Z)
           (usedWords : gset string) : Reply :=
  if negb (includes ["easy"; "medium"; "hard"; "mixed"] difficulty) then
    mkReply 400 (Message "Invalid difficulty level")
  else
    match getWordByDifficulty WORD_DATABASE depth difficulty draw now
                              usedWords with
    | Returned None _ =>
        mkReply 404 (Message "No words available for this difficulty")
    | Returned (Some w) _ => mkReply 200 (WordJson w)
    | StackExhausted => internalError
    end.




End Database.

End Routes.

(* ===================================================================== *)
(** ** Sequences of calls *)
(* ===================================================================== *)

Module Runs.
Import Js EnhancedWordService.

(** One call after the other, each with its own draw, the state of one
    being handed to the next; [None] as soon as a call returns no word. *)
Fixpoint callMany (call : nat -> gset string -> Outcome) (draws : list nat)
         (usedWords : gset string) : option (list Word * gset string) :=
  match draws with
  | [] => Some ([], usedWords)
  | draw :: rest =>
      match call draw usedWords with
      | Returned (Some r) usedWords' =>
          match callMany call rest usedWords' with
          | Some (rs, final) => Some (r :: rs, final)
          | None => None
          end
      | _ => None
      end
  end.

(** The states of [usedWords] an instance can be in: empty at start, then
    whatever a method leaves.  (A call that overflows the stack leaves the
    set as its last reset made it, which is one of these states too.) *)
Inductive Reachable (DB : list DbWord) : gset string -> Prop :=
| reachStart : Reachable DB ∅
| reachRandom depth draw now u r u' :
    Reachable DB u ->
    EnhancedWordService.getRandomWordWithDefinition DB depth draw now u
    = Returned r u' ->
    Reachable DB u'
| reachDifficulty depth d draw now u r u' :
    Reachable DB u ->
    getWordByDifficulty DB depth d draw now u = Returned r u' ->
    Reachable DB u'
| reachSmart seen d draw now u :
    Reachable DB u ->
    Reachable DB (smartUsed (getSmartWordSelection DB seen d draw now u))
| reachReset u :
    Reachable DB u -> Reachable DB (resetUsedWords u).

(** What a listed word says, its [id] apart. *)
Definition fieldsOf (l : ListedWord) : string * string * string * string :=
  (l_word l, l_definition l, l_difficulty l, l_category l).

(** What a database entry says once listed. *)
Definition listedFields (e : DbWord) : string * string * string * string :=
  (db_word e, db_definition e, mapDifficulty (db_difficulty e),
   orGeneral (db_category e)).

(** A source of ids that answers 0 every time. *)
Definition zeroIds : nat -> QArith_base.Q := fun _ => QArith_base.Qmake 0 1.

End Runs.

(* ===================================================================== *)
(** * Properties of [cleanDefinition] *)
(* ===================================================================== *)

Module CleanFacts.
Import Js Clean.

(** Facts on single characters are settled by running through the 256
    characters. *)
Ltac by_cases_on c :=
  destruct c as [[] [] [] [] [] [] [] []]; vm_compute;
  first [reflexivity | discriminate].

Lemma upper_isSpace c : isSpace (upperChar c) = isSpace c.
Proof. by_cases_on c. Qed.

Lemma upper_isOpen c : isOpen (upperChar c) = isOpen c.
Proof. by_cases_on c. Qed.

Lemma upper_isClose c : isClose (upperChar c) = isClose c.
Proof. by_cases_on c. Qed.


Lemma upper_fixed c : isLower c = false -> upperChar c = c.
Proof. unfold upperChar. intros ->. reflexivity. Qed.

Lemma space_not_open c : isSpace c && isOpen c = false.
Proof. by_cases_on c. Qed.

Lemma space_not_close c : isSpace c && isClose c = false.
Proof. by_cases_on c. Qed.

Lemma space_not_dot c : isSpace c && isDot c = false.
Proof. by_cases_on c. Qed.


Lemma isDot_eq c : isDot c = true -> c = "."%char.
Proof. unfold isDot. apply Ascii.eqb_eq. Qed.

Lemma isEmpty_eq s : isEmpty s = true -> s = "".
Proof. destruct s; [reflexivity | discriminate]. Qed.

(** *** Parentheses *)

Lemma open_not_close c : isOpen c = true -> isClose c = false.
Proof.
  unfold isOpen, isClose. intros H%Ascii.eqb_eq. subst c. reflexivity.
Qed.

Lemma hasClose_skeleton s : hasClose (skeleton s) = hasClose s.
Proof.
  induction s as [|c r IH]; simpl; [reflexivity|].
  destruct (isOpen c) eqn:Ho; simpl.
  - rewrite IH. reflexivity.
  - destruct (isClose c) eqn:Hc; simpl; [rewrite Hc; reflexivity | exact IH].
Qed.

Lemma hasAside_skeleton s : hasAside (skeleton s) = hasAside s.
Proof.
  induction s as [|c r IH]; simpl; [reflexivity|].
  destruct (isOpen c) eqn:Ho; simpl.
  - rewrite Ho, hasClose_skeleton, IH. reflexivity.
  - destruct (isClose c) eqn:Hc; simpl; [rewrite Ho; simpl|]; exact IH.
Qed.

(** A text with the same parentheses has the same asides. *)
Lemma hasAside_same_skeleton s t :
  skeleton s = skeleton t -> hasAside s = hasAside t.
Proof.
  intros H. rewrite <- (hasAside_skeleton s), <- (hasAside_skeleton t), H.
  reflexivity.
Qed.

Lemma hasClose_stripFrom b s :
  hasClose (stripFrom b s) = true -> hasClose s = true.
Proof.
  revert b. induction s as [|c r IH]; intros b; simpl; [destruct b; auto|].
  destruct b.
  - destruct (isClose c); simpl; [reflexivity|]. apply IH.
  - destruct (isOpen c && hasClose r) eqn:E.
    + intros _. apply andb_true_iff in E as [_ ->]. apply orb_true_r.
    + simpl. destruct (isClose c); simpl; [reflexivity|]. apply IH.
Qed.

Lemma hasAside_stripFrom b s : hasAside (stripFrom b s) = false.
Proof.
  revert b. induction s as [|c r IH]; intros b; simpl; [destruct b; auto|].
  destruct b.
  - destruct (isClose c); apply IH.
  - destruct (isOpen c && hasClose r) eqn:E; [apply IH|].
    simpl. rewrite IH, orb_false_r.
    destruct (isOpen c); simpl in *; [|reflexivity].
    destruct (hasClose (stripFrom false r)) eqn:E'; [|reflexivity].
    apply hasClose_stripFrom in E'. congruence.
Qed.

Lemma skeleton_collapseFrom b s : skeleton (collapseFrom b s) = skeleton s.
Proof.
  revert b. induction s as [|c r IH]; intros b; simpl; [reflexivity|].
  pose proof (space_not_open c) as Ho. pose proof (space_not_close c) as Hc.
  destruct (isSpace c); simpl in *.
  - rewrite Ho, Hc. simpl. destruct b; simpl; apply IH.
  - rewrite IH. reflexivity.
Qed.

Lemma skeleton_capitalizeFirst s : skeleton (capitalizeFirst s) = skeleton s.
Proof.
  destruct s as [|c r]; simpl; [reflexivity|].
  destruct (isLineTerminator c); simpl; [reflexivity|].
  rewrite upper_isOpen, upper_isClose.
  destruct (isOpen c || isClose c) eqn:E; [|reflexivity].
  f_equal. apply upper_fixed. revert E. by_cases_on c.
Qed.

Lemma dot_not_paren c : isDot c = true -> isOpen c || isClose c = false.
Proof. intros ->%isDot_eq. reflexivity. Qed.

Lemma skeleton_ensurePeriod s : skeleton (ensurePeriod s) = skeleton s.
Proof.
  induction s as [|c r IH]; simpl; [reflexivity|].
  destruct (isDot c && isEmpty r) eqn:E.
  - apply andb_true_iff in E as [Hd He].
    apply isEmpty_eq in He. subst r. simpl.
    rewrite (dot_not_paren c Hd). reflexivity.
  - simpl. rewrite IH. reflexivity.
Qed.

Lemma space_not_paren c : isSpace c = true -> isOpen c || isClose c = false.
Proof.
  intros H. pose proof (space_not_open c). pose proof (space_not_close c).
  rewrite H in *. simpl in *. apply orb_false_iff. auto.
Qed.

Lemma skeleton_trimStart s : skeleton (trimStart s) = skeleton s.
Proof.
  induction s as [|c r IH]; simpl; [reflexivity|].
  destruct (isSpace c) eqn:E; [|reflexivity].
  rewrite (space_not_paren c E). exact IH.
Qed.

Lemma skeleton_trimEnd s : skeleton (trimEnd s) = skeleton s.
Proof.
  induction s as [|c r IH]; simpl; [reflexivity|].
  destruct (isSpace c && isEmpty (trimEnd r)) eqn:E.
  - apply andb_true_iff in E as [Hs He]. apply isEmpty_eq in He.
    rewrite He in IH. rewrite (space_not_paren c Hs). exact IH.
  - simpl. rewrite IH. reflexivity.
Qed.

Lemma skeleton_trim s : skeleton (trim s) = skeleton s.
Proof. unfold trim. rewrite skeleton_trimEnd. apply skeleton_trimStart. Qed.

(** No aside is left in a cleaned definition. *)
Lemma cleanDefinition_no_aside s : hasAside (cleanDefinition s) = false.
Proof.
  unfold cleanDefinition, collapseSpaces, stripParens.
  transitivity (hasAside (stripFrom false s)); [|apply hasAside_stripFrom].
  apply hasAside_same_skeleton.
  rewrite skeleton_trim, skeleton_ensurePeriod, skeleton_capitalizeFirst.
  apply skeleton_collapseFrom.
Qed.

(** *** Whitespace *)

Lemma collapseFrom_shape b s :
  hasSpaceRun (collapseFrom b s) = false
  /\ (b = true -> startsWithSpace (collapseFrom b s) = false).
Proof.
  revert b. induction s as [|c r IH]; intros b; [simpl; auto|].
  cbn [collapseFrom]. destruct (isSpace c) eqn:Hs.
  - destruct b.
    + apply IH.
    + split; [|discriminate].
      destruct (IH true) as [Hrun Hstart]. specialize (Hstart eq_refl).
      cbn [hasSpaceRun]. destruct (collapseFrom true r) as [|d r'] eqn:E;
        [reflexivity|].
      simpl in Hstart. rewrite Hstart, Hrun. reflexivity.
  - split.
    + destruct (IH false) as [Hrun _]. cbn [hasSpaceRun].
      destruct (collapseFrom false r) as [|d r'] eqn:E; [reflexivity|].
      rewrite Hs, Hrun. reflexivity.
    + intros _. simpl. exact Hs.
Qed.

Lemma hasSpaceRun_capitalizeFirst s :
  hasSpaceRun (capitalizeFirst s) = hasSpaceRun s.
Proof.
  destruct s as [|c r]; simpl; [reflexivity|].
  destruct (isLineTerminator c); [reflexivity|].
  simpl. rewrite upper_isSpace. reflexivity.
Qed.

Lemma firstChar_ensurePeriod c r :
  firstChar (ensurePeriod (String c r)) = Some c.
Proof.
  simpl. destruct (isDot c && isEmpty r) eqn:E; [|reflexivity].
  apply andb_true_iff in E as [->%isDot_eq _]. reflexivity.
Qed.

Lemma hasSpaceRun_ensurePeriod s :
  hasSpaceRun (ensurePeriod s) = hasSpaceRun s.
Proof.
  induction s as [|c r IH]; [reflexivity|].
  cbn [ensurePeriod]. destruct (isDot c && isEmpty r) eqn:E.
  - apply andb_true_iff in E as [_ ->%isEmpty_eq]. reflexivity.
  - destruct r as [|d r'].
    + simpl. rewrite andb_false_r. reflexivity.
    + pose proof (firstChar_ensurePeriod d r') as Hf.
      cbn [hasSpaceRun]. rewrite IH.
      destruct (ensurePeriod (String d r')) as [|d' r'']; [discriminate|].
      simpl in Hf. injection Hf as ->. reflexivity.
Qed.

Lemma hasSpaceRun_cons2 c d r :
  hasSpaceRun (String c (String d r))
  = (isSpace c && isSpace d) || hasSpaceRun (String d r).
Proof. reflexivity. Qed.

Lemma hasSpaceRun_tail c r :
  hasSpaceRun (String c r) = false -> hasSpaceRun r = false.
Proof.
  destruct r as [|d r']; [reflexivity|]. cbn [hasSpaceRun].
  intros H. apply orb_false_iff in H as [_ H]. exact H.
Qed.

Lemma hasSpaceRun_trimStart s :
  hasSpaceRun s = false -> hasSpaceRun (trimStart s) = false.
Proof.
  induction s as [|c r IH]; [auto|]. intros H. cbn [trimStart].
  destruct (isSpace c); [|exact H].
  apply IH. exact (hasSpaceRun_tail c r H).
Qed.

Lemma trimEnd_cons c r :
  trimEnd (String c r) = "" \/ trimEnd (String c r) = String c (trimEnd r).
Proof. simpl. destruct (isSpace c && isEmpty (trimEnd r)); auto. Qed.

Lemma firstChar_trimEnd s :
  trimEnd s = "" \/ firstChar (trimEnd s) = firstChar s.
Proof.
  destruct s as [|c r]; [left; reflexivity|].
  destruct (trimEnd_cons c r) as [->| ->]; auto.
Qed.

Lemma hasSpaceRun_trimEnd s :
  hasSpaceRun s = false -> hasSpaceRun (trimEnd s) = false.
Proof.
  induction s as [|c r IH]; [auto|]. intros H.
  destruct (trimEnd_cons c r) as [->| ->]; [reflexivity|].
  pose proof (IH (hasSpaceRun_tail c r H)) as IH'.
  destruct r as [|d r']; [reflexivity|].
  destruct (firstChar_trimEnd (String d r')) as [E|E].
  - rewrite E. reflexivity.
  - destruct (trimEnd (String d r')) as [|d' r'']; [reflexivity|].
    simpl in E. injection E as ->.
    rewrite hasSpaceRun_cons2 in H |- *. apply orb_false_iff in H as [H _].
    rewrite H, IH'. reflexivity.
Qed.

(** No run of whitespace is left in a cleaned definition. *)
Lemma cleanDefinition_no_space_run s : hasSpaceRun (cleanDefinition s) = false.
Proof.
  unfold cleanDefinition, trim, collapseSpaces.
  apply hasSpaceRun_trimEnd, hasSpaceRun_trimStart.
  rewrite hasSpaceRun_ensurePeriod, hasSpaceRun_capitalizeFirst.
  apply collapseFrom_shape.
Qed.

(** *** The final period *)

Lemma endsWithPeriod_ensurePeriod s : endsWithPeriod (ensurePeriod s) = true.
Proof.
  induction s as [|c r IH]; [reflexivity|].
  cbn [ensurePeriod]. destruct (isDot c && isEmpty r); [reflexivity|].
  cbn [endsWithPeriod]. destruct (ensurePeriod r) eqn:E; [discriminate|].
  exact IH.
Qed.

Lemma ensurePeriod_fixed s : endsWithPeriod s = true -> ensurePeriod s = s.
Proof.
  induction s as [|c r IH]; [discriminate|].
  cbn [endsWithPeriod ensurePeriod]. destruct (isEmpty r) eqn:He.
  - intros Hd. rewrite Hd. simpl.
    apply isEmpty_eq in He. apply isDot_eq in Hd. subst. reflexivity.
  - intros H. rewrite andb_false_r, (IH H). reflexivity.
Qed.

Lemma endsWithPeriod_trimStart s :
  endsWithPeriod s = true -> endsWithPeriod (trimStart s) = true.
Proof.
  induction s as [|c r IH]; [auto|]. intros H. cbn [trimStart].
  destruct (isSpace c) eqn:Hs; [|exact H].
  apply IH. cbn [endsWithPeriod] in H. destruct (isEmpty r); [|exact H].
  pose proof (space_not_dot c) as N. rewrite Hs, H in N. discriminate.
Qed.

Lemma trimEnd_fixed s : endsWithPeriod s = true -> trimEnd s = s.
Proof.
  induction s as [|c r IH]; [auto|]. cbn [endsWithPeriod trimEnd].
  destruct (isEmpty r) eqn:He.
  - intros Hd. apply isEmpty_eq in He. subst r. simpl.
    pose proof (space_not_dot c) as N. rewrite Hd, andb_true_r in N.
    rewrite N. reflexivity.
  - intros H. rewrite (IH H), He, andb_false_r. reflexivity.
Qed.

(** A cleaned definition ends with a period. *)
Lemma cleanDefinition_ends_with_period s :
  endsWithPeriod (cleanDefinition s) = true.
Proof.
  unfold cleanDefinition, trim.
  rewrite trimEnd_fixed; apply endsWithPeriod_trimStart,
    endsWithPeriod_ensurePeriod.
Qed.

(** *** The first character *)

Lemma trimStart_fixed s : startsWithSpace s = false -> trimStart s = s.
Proof. destruct s as [|c r]; simpl; [auto|]. intros ->. reflexivity. Qed.




(** *** Cleaning a cleaned definition *)

Lemma stripFrom_fixed s : hasAside s = false -> stripFrom false s = s.
Proof.
  induction s as [|c r IH]; [auto|]. cbn [hasAside stripFrom].
  intros [H1 H2]%orb_false_iff. rewrite H1, (IH H2). reflexivity.
Qed.

Lemma collapseFrom_fixed b s :
  plainSpaces s = true -> hasSpaceRun s = false ->
  (b = true -> startsWithSpace s = false) ->
  collapseFrom b s = s.
Proof.
  revert b. induction s as [|c r IH]; intros b Hp Hr Hb; [reflexivity|].
  cbn [plainSpaces] in Hp. apply andb_true_iff in Hp as [Hc Hp].
  pose proof (hasSpaceRun_tail c r Hr) as Hr'.
  cbn [collapseFrom]. destruct (isSpace c) eqn:Hs.
  - destruct b; [specialize (Hb eq_refl); simpl in Hb; congruence|].
    simpl in Hc. apply Ascii.eqb_eq in Hc. subst c.
    rewrite IH; auto. intros _.
    destruct r as [|d r']; [reflexivity|].
    rewrite hasSpaceRun_cons2 in Hr. apply orb_false_iff in Hr as [Hr _].
    rewrite Hs in Hr. exact Hr.
  - rewrite IH; auto. discriminate.
Qed.

Lemma plainSpaces_collapseFrom b s : plainSpaces (collapseFrom b s) = true.
Proof.
  revert b. induction s as [|c r IH]; intros b; [reflexivity|].
  cbn [collapseFrom]. destruct (isSpace c) eqn:Hs.
  - destruct b; [apply IH|]. cbn [plainSpaces]. rewrite IH. reflexivity.
  - cbn [plainSpaces]. rewrite Hs, IH. reflexivity.
Qed.

Lemma upper_plain c :
  negb (isSpace (upperChar c)) || Ascii.eqb (upperChar c) " "%char
  = negb (isSpace c) || Ascii.eqb c " "%char.
Proof. by_cases_on c. Qed.

Lemma plainSpaces_capitalizeFirst s :
  plainSpaces (capitalizeFirst s) = plainSpaces s.
Proof.
  destruct s as [|c r]; [reflexivity|]. simpl.
  destruct (isLineTerminator c); [reflexivity|].
  cbn [plainSpaces]. rewrite upper_plain. reflexivity.
Qed.

Lemma plainSpaces_ensurePeriod s :
  plainSpaces (ensurePeriod s) = plainSpaces s.
Proof.
  induction s as [|c r IH]; [reflexivity|]. cbn [ensurePeriod].
  destruct (isDot c && isEmpty r) eqn:E.
  - apply andb_true_iff in E as [->%isDot_eq ->%isEmpty_eq]. reflexivity.
  - cbn [plainSpaces]. rewrite IH. reflexivity.
Qed.

Lemma plainSpaces_trimStart s :
  plainSpaces s = true -> plainSpaces (trimStart s) = true.
Proof.
  induction s as [|c r IH]; [auto|]. intros H. cbn [trimStart].
  destruct (isSpace c); [|exact H].
  cbn [plainSpaces] in H. apply andb_true_iff in H as [_ H]. auto.
Qed.

Lemma startsWithSpace_trimStart s : startsWithSpace (trimStart s) = false.
Proof.
  induction s as [|c r IH]; [reflexivity|]. cbn [trimStart].
  destruct (isSpace c) eqn:Hs; [exact IH | exact Hs].
Qed.

(** X16.  Cleaning changes a cleaned definition only by capitalising it:
    on ASCII text, a second pass does nothing as soon as the first one
    left no lowercase letter in front. *)
Lemma cleanDefinition_twice s :
  isAscii s = true ->
  startsLower (cleanDefinition s) = false ->
  cleanDefinition (cleanDefinition s) = cleanDefinition s.
Proof.
  intros _ Hl.
  pose proof (cleanDefinition_no_aside s) as Ha.
  pose proof (cleanDefinition_no_space_run s) as Hr.
  pose proof (cleanDefinition_ends_with_period s) as Hp.
  assert (plainSpaces (cleanDefinition s) = true) as Hs.
  { unfold cleanDefinition, trim. rewrite trimEnd_fixed.
    - apply plainSpaces_trimStart.
      rewrite plainSpaces_ensurePeriod, plainSpaces_capitalizeFirst.
      apply plainSpaces_collapseFrom.
    - apply endsWithPeriod_trimStart, endsWithPeriod_ensurePeriod. }
  assert (startsWithSpace (cleanDefinition s) = false) as Hw.
  { unfold cleanDefinition, trim. rewrite trimEnd_fixed.
    - apply startsWithSpace_trimStart.
    - apply endsWithPeriod_trimStart, endsWithPeriod_ensurePeriod. }
  set (o := cleanDefinition s) in *.
  unfold cleanDefinition at 1. unfold stripParens, collapseSpaces.
  rewrite (stripFrom_fixed o Ha).
  rewrite (collapseFrom_fixed false o Hs Hr) by discriminate.
  assert (capitalizeFirst o = o) as ->.
  { destruct o as [|c r]; [reflexivity|]. simpl in Hl |- *.
    rewrite (upper_fixed c Hl). destruct (isLineTerminator c); reflexivity. }
  rewrite (ensurePeriod_fixed o Hp). unfold trim.
  rewrite (trimStart_fixed o Hw). apply trimEnd_fixed, Hp.
Qed.

End CleanFacts.

Import Js Clean CleanFacts.

(** C7.  [cleanDefinition] is not idempotent on the definition
    ["(of a person) kind and gentle"]: the aside is removed after the place
    of the first letter was fixed, so the first pass capitalises nothing
    (it meets the space in front, which [trim] removes at the very end) and
    only the second pass yields the capital letter. *)
Theorem cleanDefinition_second_pass_differs :
  cleanDefinition "(of a person) kind and gentle" = "kind and gentle."
  /\ cleanDefinition (cleanDefinition "(of a person) kind and gentle")
     = "Kind and gentle."
  /\ cleanDefinition (cleanDefinition "(of a person) kind and gentle")
     <> cleanDefinition "(of a person) kind and gentle".
Proof. repeat split; [reflexivity .. | discriminate]. Qed.




(* ===================================================================== *)
(** * Properties of the frequency-database service *)
(* ===================================================================== *)

Module JsFacts.
Import Js.

Lemma upperChar_twice c : upperChar (upperChar c) = upperChar c.
Proof.
  destruct c as [[] [] [] [] [] [] [] []]; vm_compute; reflexivity.
Qed.

Lemma toUpperCase_twice s : toUpperCase (toUpperCase s) = toUpperCase s.
Proof.
  unfold toUpperCase. induction s as [|c r IH]; [reflexivity|].
  simpl. rewrite upperChar_twice, IH. reflexivity.
Qed.

End JsFacts.

Module EnhancedFacts.
Import Js JsFacts EnhancedWordService EnhancedSpec.

Lemma filter_all {A} (P : A -> Prop) `{forall x, Decision (P x)} (l : list A) :
  (forall x, x ∈ l -> P x) -> filter P l = l.
Proof.
  induction l as [|a l IH]; intros Hall; [reflexivity|].
  rewrite filter_cons_True by (apply Hall; left).
  rewrite IH; [reflexivity|]. intros x Hx. apply Hall. right. exact Hx.
Qed.

(** The random pick is an element of the array it is taken from. *)
Lemma randomOf_elem first l draw : l <> [] -> randomOf first l draw ∈ l.
Proof.
  intros Hne. unfold randomOf.
  destruct (nth_lookup_or_length l (draw mod List.length l) first) as [E|E].
  - eapply list_elem_of_lookup_2. exact E.
  - exfalso. destruct l as [|a l]; [congruence|].
    pose proof (Nat.mod_upper_bound draw (List.length (a :: l))) as B.
    simpl in B, E. lia.
Qed.

Lemma elem_of_available e pool used :
  e ∈ available pool used <-> (db_word e ∉ used) /\ (e ∈ pool).
Proof.
  unfold available.
  exact (list_elem_of_filter (fun w => db_word w ∉ used) pool e).
Qed.

Lemma available_empty pool : available pool ∅ = pool.
Proof. apply filter_all. intros x _. set_solver. Qed.

(** The loop of deletions removes exactly the words of the pool. *)
Lemma deleteAll_spec pool used :
  deleteAll pool used = used ∖ list_to_set (wordsOf pool).
Proof.
  unfold deleteAll, wordsOf. revert used.
  induction pool as [|a pool IH]; intros used; simpl.
  - set_solver.
  - rewrite IH. set_solver.
Qed.

Lemma available_deleteAll pool used :
  available pool (deleteAll pool used) = pool.
Proof.
  apply filter_all. intros x Hx. rewrite deleteAll_spec.
  assert (db_word x ∈ wordsOf pool) by (apply list_elem_of_fmap_2; exact Hx).
  set_solver.
Qed.

Lemma elem_of_wordsOf e pool : e ∈ pool -> db_word e ∈ wordsOf pool.
Proof. apply list_elem_of_fmap_2. Qed.

Lemma word_toWord now e : word (toWord now e) = db_word e.
Proof. reflexivity. Qed.

Section Database.
Variable DB : list DbWord.

(** One frame of [getWordByDifficulty] when something is available. *)
Lemma getWordByDifficulty_pick depth d draw now used first :
  head (available (wordPool DB d) used) = Some first ->
  getWordByDifficulty DB (S depth) d draw now used
  = returned (dispense now
                (randomOf first (available (wordPool DB d) used) draw) used).
Proof.
  intros H. simpl. destruct (available (wordPool DB d) used); [discriminate|].
  injection H as ->. reflexivity.
Qed.

(** One frame of [getWordByDifficulty] when nothing is available. *)
Lemma getWordByDifficulty_retry depth d draw now used :
  available (wordPool DB d) used = [] ->
  getWordByDifficulty DB (S depth) d draw now used
  = getWordByDifficulty DB depth d draw now (deleteAll (wordPool DB d) used).
Proof. intros H. simpl. rewrite H. reflexivity. Qed.

Lemma getRandomWordWithDefinition_retry depth draw now used :
  available DB used = [] ->
  getRandomWordWithDefinition DB (S depth) draw now used
  = getRandomWordWithDefinition DB depth draw now ∅.
Proof. intros H. simpl. rewrite H. reflexivity. Qed.

(** With an empty pool no number of frames is enough. *)
Lemma getWordByDifficulty_empty_pool depth d draw now used :
  wordPool DB d = [] ->
  getWordByDifficulty DB depth d draw now used = StackExhausted.
Proof.
  intros H. revert used. induction depth as [|depth IH]; intros used;
    [reflexivity|].
  rewrite getWordByDifficulty_retry; [apply IH|].
  rewrite H. reflexivity.
Qed.

Lemma getRandomWordWithDefinition_empty_database depth draw now used :
  DB = [] ->
  getRandomWordWithDefinition DB depth draw now used = StackExhausted.
Proof.
  intros H. revert used. induction depth as [|depth IH]; intros used;
    [reflexivity|].
  rewrite getRandomWordWithDefinition_retry; [apply IH|].
  rewrite H. reflexivity.
Qed.

(** With a pool that is not empty two frames are enough: the call returns
    a word of the pool, after at most one reset. *)
Lemma getWordByDifficulty_returns depth d draw now used :
  wordPool DB d <> [] ->
  exists e used',
    getWordByDifficulty DB (S (S depth)) d draw now used
    = Returned (Some (toWord now e)) ({[db_word e]} ∪ used')
    /\ (e ∈ wordPool DB d)
    /\ (available (wordPool DB d) used <> [] ->
        used' = used /\ (db_word e ∉ used))
    /\ (available (wordPool DB d) used = [] ->
        used' = used ∖ list_to_set (wordsOf (wordPool DB d))).
Proof.
  intros Hne.
  destruct (available (wordPool DB d) used) as [|first rest] eqn:E.
  - rewrite (getWordByDifficulty_retry _ _ _ _ _ E).
    destruct (wordPool DB d) as [|p pool] eqn:Ep; [congruence|].
    rewrite <- Ep in *.
    erewrite getWordByDifficulty_pick
      by (rewrite available_deleteAll, Ep; reflexivity).
    rewrite available_deleteAll.
    exists (randomOf p (wordPool DB d) draw), (deleteAll (wordPool DB d) used).
    split; [reflexivity|]. split; [apply randomOf_elem; exact Hne|].
    split; [congruence|]. intros _. apply deleteAll_spec.
  - erewrite getWordByDifficulty_pick by (rewrite E; reflexivity).
    rewrite E.
    pose proof (randomOf_elem first (first :: rest) draw) as Hin.
    rewrite <- E in Hin. apply elem_of_available in Hin as [Hnot Hin];
      [|rewrite E; discriminate].
    rewrite E in *.
    exists (randomOf first (first :: rest) draw), used.
    split; [reflexivity|]. split; [exact Hin|].
    split; [auto | discriminate].
Qed.

(** The same for [getRandomWordWithDefinition] on a database that is not
    empty. *)
Lemma getRandomWordWithDefinition_returns depth draw now used :
  DB <> [] ->
  exists e used',
    getRandomWordWithDefinition DB (S (S depth)) draw now used
    = Returned (Some (toWord now e)) ({[db_word e]} ∪ used')
    /\ (e ∈ DB)
    /\ (available DB used <> [] -> used' = used /\ (db_word e ∉ used))
    /\ (available DB used = [] -> used' = ∅).
Proof.
  intros Hne. destruct (available DB used) as [|first rest] eqn:E.
  - rewrite (getRandomWordWithDefinition_retry _ _ _ _ E).
    destruct DB as [|p pool] eqn:Ep; [congruence|]. rewrite <- Ep in *.
    cbn [getRandomWordWithDefinition]. rewrite available_empty.
    exists (randomOf p DB draw), ∅.
    split; [|split; [apply randomOf_elem; exact Hne|]].
    + destruct DB as [|a l]; [congruence|]. injection Ep as -> ->. reflexivity.
    + split; [congruence | reflexivity].
  - cbn [getRandomWordWithDefinition]. rewrite E.
    pose proof (randomOf_elem first (first :: rest) draw) as Hin.
    rewrite <- E in Hin. apply elem_of_available in Hin as [Hnot Hin];
      [|rewrite E; discriminate].
    rewrite E in *.
    exists (randomOf first (first :: rest) draw), used.
    split; [reflexivity|]. split; [exact Hin|].
    split; [auto | discriminate].
Qed.

Lemma elem_of_unseen e pool seen used :
  e ∈ unseen pool seen used
  <-> ((toUpperCase (db_word e) ∉ seen) /\ (db_word e ∉ used)) /\ (e ∈ pool).
Proof.
  unfold unseen.
  exact (list_elem_of_filter
           (fun w => (toUpperCase (db_word w) ∉ seen) /\ (db_word w ∉ used))
           pool e).
Qed.

(** [getSmartWordSelection] when some word is neither in the personal list
    nor in the local set. *)
Lemma getSmartWordSelection_unseen seen d draw now used first rest :
  unseen (wordPool DB d) seen used = first :: rest ->
  getSmartWordSelection DB seen d draw now used
  = mkSmartResult
      (Some (toWord now (randomOf first (first :: rest) draw)))
      ({[db_word (randomOf first (first :: rest) draw)]} ∪ used) seen.
Proof. intros E. unfold getSmartWordSelection. rewrite E. reflexivity. Qed.

(** [getSmartWordSelection] when every word is in one of the two. *)
Lemma getSmartWordSelection_all_seen seen d draw now used :
  unseen (wordPool DB d) seen used = [] ->
  getSmartWordSelection DB seen d draw now used
  = match wordPool DB d with
    | [] => mkSmartResult None ∅ seen
    | first :: _ =>
        mkSmartResult
          (Some (toWord now (randomOf first (wordPool DB d) draw)))
          ({[db_word (randomOf first (wordPool DB d) draw)]} ∪ ∅) seen
    end.
Proof.
  intros E. unfold getSmartWordSelection. rewrite E, available_empty.
  destruct (wordPool DB d); reflexivity.
Qed.

End Database.

Lemma elem_of_wordPool DB d e : e ∈ wordPool DB d -> e ∈ DB.
Proof.
  assert (forall c, e ∈ byDifficulty DB c -> e ∈ DB) as Htier.
  { intros c. unfold byDifficulty. intros (i & Hi & _)%elem_of_take.
    apply list_elem_of_lookup_2 in Hi.
    apply (list_elem_of_filter (fun w => db_difficulty w = c)) in Hi.
    apply Hi. }
  unfold wordPool, WORDS_BY_DIFFICULTY_easy, WORDS_BY_DIFFICULTY_medium,
    WORDS_BY_DIFFICULTY_hard.
  repeat case_match; eauto.
Qed.

End EnhancedFacts.

Import JsFacts EnhancedWordService EnhancedSpec EnhancedFacts.

(** C1 as worded fails: with a common and an expert word both seen, a
    request for an easy word finds nothing available, and the reset leaves
    the expert word in the seen-word set. *)
Lemma getWordByDifficulty_keeps_other_tiers :
  available (wordPool twoTiers "easy") {[ "HOUSE"; "ZEPHYR" ]} = []
  /\ (exists r used',
        getWordByDifficulty twoTiers 2 "easy" 0 0 {[ "HOUSE"; "ZEPHYR" ]}
        = Returned r used' /\ "ZEPHYR" ∈ used')
  /\ ~ clearsEntirely twoTiers "easy" {[ "HOUSE"; "ZEPHYR" ]}.
Proof.
  split; [vm_compute; reflexivity|]. split.
  - destruct (getWordByDifficulty_returns twoTiers 0 "easy" 0 0
                {[ "HOUSE"; "ZEPHYR" ]}) as (e & used' & E & _ & _ & Hreset);
      [vm_compute; discriminate|].
    eexists _, _. split; [exact E|].
    rewrite Hreset by (vm_compute; reflexivity).
    change (wordsOf (wordPool twoTiers "easy")) with ["HOUSE"].
    apply elem_of_union. right. apply elem_of_difference. split.
    + apply elem_of_union. right. apply elem_of_singleton. reflexivity.
    + rewrite elem_of_list_to_set. intros H%list_elem_of_singleton.
      discriminate.
  - intros H. specialize (H 1 0 0%Z).
    apply (f_equal (fun o => match o with
                             | Returned _ u => bool_decide ("ZEPHYR" ∈ u)
                             | StackExhausted => false
                             end)) in H.
    vm_compute in H. discriminate.
Qed.

(** C1 (amended).  When nothing of the requested pool is available,
    [getWordByDifficulty] removes from the seen-word set exactly the words
    of that pool and retries on the result: the seen words that are not in
    the pool stay.  With a pool that is not empty the retry returns a word
    of the pool, and the set is then made of that word and of the seen
    words outside the pool. *)
Theorem getWordByDifficulty_resets_its_pool
        (DB : list DbWord) (d : string) (draw : nat) (now : Z)
        (used : gset string) :
  available (wordPool DB d) used = [] ->
  (forall depth,
      getWordByDifficulty DB (S depth) d draw now used
      = getWordByDifficulty DB depth d draw now
          (used ∖ list_to_set (wordsOf (wordPool DB d))))
  /\ (forall x, x ∈ used -> x ∉ wordsOf (wordPool DB d) ->
                x ∈ used ∖ list_to_set (wordsOf (wordPool DB d)))
  /\ (wordPool DB d <> [] ->
      forall depth, exists e,
        e ∈ wordPool DB d
        /\ getWordByDifficulty DB (S (S depth)) d draw now used
           = Returned (Some (toWord now e))
               ({[db_word e]} ∪ (used ∖ list_to_set (wordsOf (wordPool DB d))))).
Proof.
  intros Hnone. split; [|split].
  - intros depth. rewrite (getWordByDifficulty_retry _ _ _ _ _ _ Hnone).
    rewrite deleteAll_spec. reflexivity.
  - intros x Hx Hout. set_solver.
  - intros Hne depth.
    destruct (getWordByDifficulty_returns DB depth d draw now used Hne)
      as (e & used' & E & Hin & _ & Hreset).
    exists e. split; [exact Hin|]. rewrite E, (Hreset Hnone). reflexivity.
Qed.

(** The reset on the two-tier database, both words seen, easy requested. *)
Lemma getWordByDifficulty_resets_its_pool_witness :
  available (wordPool twoTiers "easy") {[ "HOUSE"; "ZEPHYR" ]} = []
  /\ exists e,
      e ∈ wordPool twoTiers "easy"
      /\ getWordByDifficulty twoTiers 2 "easy" 0 0 {[ "HOUSE"; "ZEPHYR" ]}
         = Returned (Some (toWord 0 e))
             ({[db_word e]} ∪ ({[ "HOUSE"; "ZEPHYR" ]}
                               ∖ list_to_set (wordsOf (wordPool twoTiers "easy")))).
Proof.
  assert (available (wordPool twoTiers "easy") {[ "HOUSE"; "ZEPHYR" ]} = [])
    as Hnone by (vm_compute; reflexivity).
  split; [exact Hnone|].
  destruct (getWordByDifficulty_resets_its_pool twoTiers "easy" 0 0
              {[ "HOUSE"; "ZEPHYR" ]} Hnone) as (_ & _ & Hret).
  apply (Hret ltac:(vm_compute; discriminate) 0).
Defined.

(** C2.  With an empty pool the two methods never return: whatever the
    number of stack frames, the recursion uses them all.  This is the case
    of [getRandomWordWithDefinition] on an empty database, and of
    [getWordByDifficulty] for the hard tier on the built-in fallback list,
    which has common words only. *)
Theorem empty_pool_exhausts_the_stack :
  (forall depth draw now used,
      EnhancedWordService.getRandomWordWithDefinition [] depth draw now used
      = StackExhausted)
  /\ (forall depth draw now used,
         getWordByDifficulty getFallbackWordList depth "hard" draw now used
         = StackExhausted)
  /\ (forall depth draw now used,
         getWordByDifficulty [] depth "mixed" draw now used = StackExhausted).
Proof.
  split; [|split]; intros depth draw now used.
  - apply getRandomWordWithDefinition_empty_database. reflexivity.
  - apply getWordByDifficulty_empty_pool. reflexivity.
  - apply getWordByDifficulty_empty_pool. reflexivity.
Qed.

(** C4 as worded fails for the smart selection: the personal list is
    compared with the upper-case form of a corpus word, so a word stored
    with lowercase letters is returned although the list holds it, the
    filtered pool being not empty. *)
Lemma smart_selection_returns_a_listed_word :
  unseen (wordPool lowerCaseCorpus "hard") ["zephyr"] ∅ <> []
  /\ exists r,
      smartWord (getSmartWordSelection lowerCaseCorpus ["zephyr"] "hard"
                                       0 0 ∅) = Some r
      /\ (word r ∈ ["zephyr"]).
Proof.
  split; [vm_compute; discriminate|].
  eexists. split; [reflexivity|]. apply list_elem_of_singleton. reflexivity.
Qed.

(** C4 (amended).  With a pool that is not empty, a selection returns a
    word of the pool, whatever the exclusion set: [getWordByDifficulty]
    within two stack frames (at most one reset), [getSmartWordSelection]
    directly.  When the filtered pool is not empty, the word returned is
    not in the local seen-word set and is added to it; for the smart
    selection, its upper-case form is not in the personal list, so the word
    itself is not in the list when it is in upper case.  When the filtered
    pool is empty the exclusion is reset, and the set left holds the word
    returned: beside what [getWordByDifficulty] kept of the other pools, or
    alone after the smart selection. *)
Theorem selection_respects_exclusion
        (DB : list DbWord) (d : string) (seen : list string)
        (depth draw : nat) (now : Z) (used : gset string) :
  wordPool DB d <> [] ->
  (exists r used',
      getWordByDifficulty DB (S (S depth)) d draw now used
      = Returned (Some r) used'
      /\ (word r ∈ wordsOf (wordPool DB d))
      /\ (available (wordPool DB d) used <> [] ->
          (word r ∉ used) /\ used' = {[word r]} ∪ used)
      /\ (available (wordPool DB d) used = [] ->
          used' = {[word r]}
                  ∪ (used ∖ list_to_set (wordsOf (wordPool DB d)))))
  /\ (exists r,
         smartWord (getSmartWordSelection DB seen d draw now used) = Some r
         /\ (word r ∈ wordsOf (wordPool DB d))
         /\ (unseen (wordPool DB d) seen used <> [] ->
             (word r ∉ used)
             /\ (toUpperCase (word r) ∉ seen)
             /\ (toUpperCase (word r) = word r -> word r ∉ seen)
             /\ smartUsed (getSmartWordSelection DB seen d draw now used)
                = {[word r]} ∪ used)
         /\ (unseen (wordPool DB d) seen used = [] ->
             smartUsed (getSmartWordSelection DB seen d draw now used)
             = {[word r]})).
Proof.
  intros Hne. split.
  - destruct (getWordByDifficulty_returns DB depth d draw now used Hne)
      as (e & used' & E & Hin & Hsome & Hnone).
    exists (toWord now e), ({[db_word e]} ∪ used').
    split; [exact E|]. split; [apply elem_of_wordsOf; exact Hin|].
    rewrite word_toWord. split.
    + intros Hav. destruct (Hsome Hav) as [-> Hnot].
      split; [exact Hnot | reflexivity].
    + intros Hav. rewrite (Hnone Hav). reflexivity.
  - destruct (unseen (wordPool DB d) seen used) as [|first rest] eqn:E.
    + rewrite (getSmartWordSelection_all_seen DB _ _ _ _ _ E).
      destruct (wordPool DB d) as [|p pool] eqn:Ep; [congruence|].
      rewrite <- Ep. cbn [smartWord smartUsed].
      exists (toWord now (randomOf p (wordPool DB d) draw)).
      split; [reflexivity|].
      split; [apply elem_of_wordsOf, randomOf_elem; congruence|].
      split; [congruence|]. intros _. rewrite word_toWord.
      apply (right_id_L (∅ : gset string) (∪)).
    + rewrite (getSmartWordSelection_unseen DB _ _ _ _ _ _ _ E).
      cbn [smartWord smartUsed].
      assert (randomOf first (first :: rest) draw
                ∈ unseen (wordPool DB d) seen used) as Hin
          by (rewrite E; apply randomOf_elem; discriminate).
      apply elem_of_unseen in Hin as [[Hseen Hused] Hin].
      exists (toWord now (randomOf first (first :: rest) draw)).
      split; [reflexivity|]. split; [apply elem_of_wordsOf; exact Hin|].
      rewrite word_toWord. split; [|discriminate].
      intros _. split; [exact Hused|]. split; [exact Hseen|].
      split; [|reflexivity]. intros Hup. rewrite <- Hup. exact Hseen.
Qed.

(** The exclusion on the built-in list: WATER is in the local set, HOUSE
    in the personal list. *)
Lemma selection_respects_exclusion_witness :
  (exists r used',
      getWordByDifficulty getFallbackWordList 2 "easy" 1 0 {[ "WATER" ]}
      = Returned (Some r) used'
      /\ (word r ∈ wordsOf (wordPool getFallbackWordList "easy"))
      /\ (word r ∉ ({[ "WATER" ]} : gset string))
      /\ used' = {[word r]} ∪ {[ "WATER" ]})
  /\ (exists r,
         smartWord (getSmartWordSelection getFallbackWordList ["HOUSE"]
                                          "easy" 1 0 {[ "WATER" ]}) = Some r
         /\ (word r ∉ ({[ "WATER" ]} : gset string))
         /\ (toUpperCase (word r) ∉ ["HOUSE"])).
Proof.
  assert (wordPool getFallbackWordList "easy" <> []) as Hne
      by (vm_compute; discriminate).
  destruct (selection_respects_exclusion getFallbackWordList "easy" ["HOUSE"]
              0 1 0 {[ "WATER" ]} Hne)
    as [(r & used' & E & Hin & Hex & _) (r' & E' & _ & Hex' & _)].
  split.
  - exists r, used'. split; [exact E|]. split; [exact Hin|].
    apply Hex. vm_compute. discriminate.
  - exists r'. split; [exact E'|].
    destruct Hex' as (H1 & H2 & _); [vm_compute; discriminate|].
    split; [exact H1 | exact H2].
Defined.



(** C10.  The personal list is compared, as it is, with the upper-case
    form of the corpus word: with ["house"] in the personal list the word
    HOUSE is still selected and returned, while ["HOUSE"] excludes it; and
    in general the entries of the personal list that are not in upper case
    exclude nothing. *)
Theorem personal_list_is_case_sensitive :
  (exists r,
      smartWord (getSmartWordSelection getFallbackWordList ["house"]
                                       "mixed" 0 0 ∅) = Some r
      /\ word r = "HOUSE")
  /\ wordsOf (unseen getFallbackWordList ["house"] ∅)
     = ["HOUSE"; "WATER"; "SCHOOL"]
  /\ wordsOf (unseen getFallbackWordList ["HOUSE"] ∅) = ["WATER"; "SCHOOL"]
  /\ (forall pool seen used,
         unseen pool seen used
         = unseen pool (filter (fun x => toUpperCase x = x) seen) used).
Proof.
  split; [eexists; split; vm_compute; reflexivity|].
  split; [vm_compute; reflexivity|]. split; [vm_compute; reflexivity|].
  intros pool seen used. unfold unseen. apply list_filter_iff.
  intros e. split; intros [Hs Hu]; split; try exact Hu; intros Hin; apply Hs.
  - apply (list_elem_of_filter (fun x => toUpperCase x = x)) in Hin.
    apply Hin.
  - apply (list_elem_of_filter (fun x => toUpperCase x = x)).
    split; [apply toUpperCase_twice | exact Hin].
Qed.

(* ===================================================================== *)
(** * Properties of the API-backed service *)
(* ===================================================================== *)

Module WordServiceFacts.
Import Js WordService WordServiceSpec.

(** *** The definition lookup *)

Lemma firstUsable_inBand ms text :
  firstUsable ms = Some text -> inBand text = true.
Proof.
  induction ms as [|m ms IH]; [discriminate|]. simpl.
  destruct (definitions m) as [[|d ds]|]; auto.
  fold (inBand (Clean.cleanDefinition d)).
  destruct (inBand (Clean.cleanDefinition d)) eqn:B; auto.
  intros [= <-]. exact B.
Qed.

Lemma firstUsable_none ms :
  (forall m d ds, m ∈ ms -> definitions m = Some (d :: ds) ->
                  inBand (Clean.cleanDefinition d) = false) ->
  firstUsable ms = None.
Proof.
  induction ms as [|m ms IH]; intros Hall; [reflexivity|]. simpl.
  assert (firstUsable ms = None) as Hrest
      by (apply IH; intros m' d ds Hin; apply Hall; right; exact Hin).
  destruct (definitions m) as [[|d ds]|] eqn:Ed; auto.
  fold (inBand (Clean.cleanDefinition d)).
  rewrite (Hall m d ds); [exact Hrest | left | exact Ed].
Qed.

(** A definition that is returned is in the band, hence truthy. *)
Lemma definitionOf_inBand r text :
  definitionOf r = Some text -> inBand text = true.
Proof.
  destruct r as [|status [[|entry rest]|]]; simpl; try discriminate;
    destruct (ok status); simpl; try discriminate.
  destruct (meanings entry) as [[|m ms]|]; try discriminate.
  apply (firstUsable_inBand (m :: ms)).
Qed.

Lemma inBand_truthy text : inBand text = true -> truthy (Some text) = true.
Proof. destruct text; [discriminate | reflexivity]. Qed.

(** Every failure of the lookup is the answer [null]. *)
Lemma lookup_failure_is_null r : LookupFailure r -> definitionOf r = None.
Proof.
  intros [|status body Hok|status|status|status entry rest Hm
          |status entry rest ms Hm Hall]; simpl.
  - reflexivity.
  - rewrite Hok. reflexivity.
  - destruct (ok status); reflexivity.
  - destruct (ok status); reflexivity.
  - destruct (ok status); simpl; [|reflexivity].
    destruct Hm as [-> | ->]; reflexivity.
  - destruct (ok status); simpl; [|reflexivity]. rewrite Hm.
    destruct ms as [|m ms']; [reflexivity|].
    apply (firstUsable_none (m :: ms')), Hall.
Qed.

(** *** The random pick *)

Lemma randomElement_spec e l w :
  l <> [] ->
  exists x, x ∈ l
            /\ randomElement e l w
               = (Some x, mkWorld (usedWords w) (S (draws w)) (requests w)).
Proof.
  intros Hne. unfold randomElement, bind, randomIndex, ret.
  destruct (nth_error l (random e (draws w) mod List.length l)) as [x|] eqn:E.
  - exists x. split; [|reflexivity].
    apply list_elem_of_In. eapply nth_error_In. exact E.
  - exfalso. apply nth_error_None in E.
    destruct l as [|a l]; [congruence|].
    pose proof (Nat.mod_upper_bound (random e (draws w))
                                    (List.length (a :: l))) as B.
    simpl in B, E. lia.
Qed.

Lemma length_zero_nil {A} (l : list A) :
  (List.length l =? 0)%nat = true <-> l = [].
Proof.
  destruct l; simpl; split; intros H; try reflexivity; discriminate.
Qed.

(** No word of the three lists is the empty string. *)
Lemma listed_words_truthy x :
  x ∈ (CURATED_WORDS ++ concat DYNAMIC_WORD_POOLS ++ randomWords)%list ->
  truthy (Some x) = true.
Proof.
  intros H%list_elem_of_In.
  assert (forallb (fun y => truthy (Some y))
                  (CURATED_WORDS ++ concat DYNAMIC_WORD_POOLS ++ randomWords)%list
          = true) as Hall by (vm_compute; reflexivity).
  rewrite forallb_forall in Hall. apply Hall, H.
Qed.

(** *** The choice of the candidate *)

Lemma elem_of_unused (x : string) (l : list string) (used : gset string) :
  x ∈ filter (fun y => y ∉ used) l <-> (x ∉ used) /\ (x ∈ l).
Proof. exact (list_elem_of_filter (fun y => y ∉ used) l x). Qed.

Lemma getCuratedWord_spec e w :
  (exhausted CURATED_WORDS (usedWords w) /\ getCuratedWord e w = (None, w))
  \/ (exists x, (x ∈ CURATED_WORDS) /\ (x ∉ usedWords w)
                /\ getCuratedWord e w = (Some x, tick w)).
Proof.
  unfold getCuratedWord, bind, getUsed, ret, exhausted.
  destruct (List.length (filter (fun y => y ∉ usedWords w) CURATED_WORDS)
            =? 0)%nat eqn:E.
  - left. apply length_zero_nil in E. auto.
  - right. destruct (randomElement_spec e
                       (filter (fun y => y ∉ usedWords w) CURATED_WORDS) w)
      as (x & Hin & ->).
    + intros H. apply length_zero_nil in H. congruence.
    + apply elem_of_unused in Hin as [Hnot Hin]. exists x. auto.
Qed.

Lemma getDynamicWord_spec e w :
  (exhausted (concat DYNAMIC_WORD_POOLS) (usedWords w)
   /\ getDynamicWord e w = (None, w))
  \/ (exists x, (x ∈ concat DYNAMIC_WORD_POOLS) /\ (x ∉ usedWords w)
                /\ getDynamicWord e w = (Some x, tick w)).
Proof.
  unfold getDynamicWord, bind, getUsed, ret, exhausted.
  destruct (List.length (filter (fun y => y ∉ usedWords w)
                                (concat DYNAMIC_WORD_POOLS)) =? 0)%nat eqn:E.
  - left. apply length_zero_nil in E. auto.
  - right. destruct (randomElement_spec e
                       (filter (fun y => y ∉ usedWords w)
                               (concat DYNAMIC_WORD_POOLS)) w)
      as (x & Hin & ->).
    + intros H. apply length_zero_nil in H. congruence.
    + apply elem_of_unused in Hin as [Hnot Hin]. exists x. auto.
Qed.

Lemma getRandomDictionaryWord_spec e w :
  (exhausted randomWords (usedWords w)
   /\ exists x, (x ∈ randomWords)
                /\ getRandomDictionaryWord e w
                   = (Some x, mkWorld ∅ (S (draws w)) (requests w)))
  \/ (exists x, (x ∈ randomWords) /\ (x ∉ usedWords w)
                /\ getRandomDictionaryWord e w = (Some x, tick w)).
Proof.
  unfold getRandomDictionaryWord, bind, getUsed, setUsed, ret, exhausted.
  destruct (List.length (filter (fun y => y ∉ usedWords w) randomWords)
            =? 0)%nat eqn:E.
  - left. apply length_zero_nil in E. split; [exact E|].
    destruct (randomElement_spec e randomWords
                (mkWorld ∅ (draws w) (requests w))) as (x & Hin & ->);
      [discriminate|].
    exists x. auto.
  - right. destruct (randomElement_spec e
                       (filter (fun y => y ∉ usedWords w) randomWords) w)
      as (x & Hin & ->).
    + intros H. apply length_zero_nil in H. congruence.
    + apply elem_of_unused in Hin as [Hnot Hin]. exists x. auto.
Qed.

Lemma truthy_curated x : x ∈ CURATED_WORDS -> truthy (Some x) = true.
Proof.
  intros H. apply listed_words_truthy. apply elem_of_app. left. exact H.
Qed.

Lemma truthy_dynamic x :
  x ∈ concat DYNAMIC_WORD_POOLS -> truthy (Some x) = true.
Proof.
  intros H. apply listed_words_truthy. apply elem_of_app. right.
  apply elem_of_app. left. exact H.
Qed.

Lemma truthy_generic x : x ∈ randomWords -> truthy (Some x) = true.
Proof.
  intros H. apply listed_words_truthy. apply elem_of_app. right.
  apply elem_of_app. right. exact H.
Qed.

(** A candidate is always found: it is a word of the first list that is not
    exhausted, and the choice costs one draw and no request. *)
Lemma chooseCandidate_spec e w :
  exists x used1,
    chooseCandidate e w
    = (Some x, mkWorld used1 (S (draws w)) (requests w))
    /\ truthy (Some x) = true
    /\ chosenBy (usedWords w) x used1.
Proof.
  unfold chooseCandidate, bind, chosenBy.
  destruct (getCuratedWord_spec e w) as [[Hc ->]|(x & Hin & Hnot & ->)].
  - cbn [truthy negb].
    destruct (getDynamicWord_spec e w) as [[Hd ->]|(x & Hin & Hnot & ->)].
    + cbn [truthy negb].
      destruct (getRandomDictionaryWord_spec e w)
        as [[Hg (x & Hin & ->)]|(x & Hin & Hnot & ->)].
      * exists x, ∅. split; [reflexivity|]. split; [apply truthy_generic, Hin|].
        right; right; right. auto.
      * exists x, (usedWords w). split; [reflexivity|].
        split; [apply truthy_generic, Hin|]. right; right; left. auto.
    + rewrite (truthy_dynamic x Hin). cbn [negb ret].
      exists x, (usedWords w). split; [reflexivity|].
      split; [apply truthy_dynamic, Hin|]. right; left. auto.
  - rewrite (truthy_curated x Hin). cbn [negb ret].
    rewrite (truthy_curated x Hin). cbn [negb ret].
    exists x, (usedWords w). split; [reflexivity|].
    split; [apply truthy_curated, Hin|]. left. auto.
Qed.

(** The call, once the candidate is known: one request for it; on an
    answer, the word is marked and returned; on [null], a fallback word is
    drawn and nothing is marked. *)
Lemma getRandomWordWithDefinition_spec e w x w1 :
  chooseCandidate e w = (Some x, w1) -> truthy (Some x) = true ->
  WordService.getRandomWordWithDefinition e w
  = match definitionOf (responseFor e w1 x) with
    | Some text =>
        (Some (mkWord (now e) (toUpperCase x) text
                      (categorizeWordDifficulty x) "general"),
         mkWorld ({[x]} ∪ usedWords w1) (draws w1)
                 (requests w1 ++ [toLowerCase x]))
    | None =>
        (Some (fallbackAt (now e) (random e (draws w1) mod 3)),
         mkWorld (usedWords w1) (S (draws w1))
                 (requests w1 ++ [toLowerCase x]))
    end.
Proof.
  unfold chooseCandidate, WordService.getRandomWordWithDefinition, bind.
  destruct (getCuratedWord e w) as [c1 w'].
  destruct ((if negb (truthy c1) then getDynamicWord e else ret c1) w')
    as [c2 w''].
  intros -> Ht. rewrite Ht.
  unfold fetchDefinitionFromAPI, responseFor.
  destruct (definitionOf (api e (List.length (requests w1)) (toLowerCase x)))
    as [text|] eqn:Ed.
  - rewrite (inBand_truthy text (definitionOf_inBand _ _ Ed)). reflexivity.
  - reflexivity.
Qed.

(** *** Exhausted lists *)

Lemma exhausted_of_subset (l : list string) (used : gset string) :
  (forall x, x ∈ l -> x ∈ used) -> exhausted l used.
Proof.
  unfold exhausted. induction l as [|a l IH]; intros Hall; [reflexivity|].
  rewrite filter_cons_False by (intros Hn; apply Hn, Hall; left).
  apply IH. intros x Hx. apply Hall. right. exact Hx.
Qed.

Lemma getCuratedWord_exhausted e w :
  exhausted CURATED_WORDS (usedWords w) -> getCuratedWord e w = (None, w).
Proof.
  unfold getCuratedWord, bind, getUsed, ret, exhausted. intros ->. reflexivity.
Qed.

Lemma getDynamicWord_exhausted e w :
  exhausted (concat DYNAMIC_WORD_POOLS) (usedWords w) ->
  getDynamicWord e w = (None, w).
Proof.
  unfold getDynamicWord, bind, getUsed, ret, exhausted. intros ->. reflexivity.
Qed.

(** With the three lists exhausted the set is cleared and the candidate is
    drawn from the whole generic list. *)
Lemma chooseCandidate_all_exhausted e w :
  exhausted CURATED_WORDS (usedWords w) ->
  exhausted (concat DYNAMIC_WORD_POOLS) (usedWords w) ->
  exhausted randomWords (usedWords w) ->
  chooseCandidate e w
  = (nth_error randomWords (random e (draws w) mod List.length randomWords),
     mkWorld ∅ (S (draws w)) (requests w)).
Proof.
  intros H1 H2 H3. unfold chooseCandidate, bind.
  rewrite (getCuratedWord_exhausted e w H1). cbn [truthy negb].
  rewrite (getDynamicWord_exhausted e w H2). cbn [truthy negb].
  unfold getRandomDictionaryWord, bind, getUsed, setUsed, ret.
  unfold exhausted in H3. rewrite H3. reflexivity.
Qed.

(** With nothing marked the candidate is drawn from the whole curated
    list. *)
Lemma chooseCandidate_unused e w :
  usedWords w = ∅ ->
  chooseCandidate e w
  = (nth_error CURATED_WORDS
               (random e (draws w) mod List.length CURATED_WORDS),
     tick w).
Proof.
  intros Hu.
  assert (filter (fun y => y ∉ usedWords w) CURATED_WORDS = CURATED_WORDS)
    as Hf.
  { rewrite Hu. induction CURATED_WORDS as [|a l IH]; [reflexivity|].
    rewrite filter_cons_True by apply not_elem_of_empty. rewrite IH.
    reflexivity. }
  unfold chooseCandidate, bind, getCuratedWord, bind, getUsed, ret.
  rewrite Hf.
  change ((List.length CURATED_WORDS =? 0)%nat) with false. cbv iota.
  unfold randomElement, bind, randomIndex, ret, tick.
  destruct (nth_error CURATED_WORDS
                      (random e (draws w) mod List.length CURATED_WORDS))
    as [x|] eqn:E.
  - assert (truthy (Some x) = true) as Ht.
    { apply listed_words_truthy, elem_of_app. left.
      apply list_elem_of_In. eapply nth_error_In. exact E. }
    rewrite Ht. cbn [negb]. rewrite Ht. reflexivity.
  - exfalso. apply nth_error_None in E.
    pose proof (Nat.mod_upper_bound (random e (draws w))
                                    (List.length CURATED_WORDS)) as B.
    assert (List.length CURATED_WORDS <> 0) by (vm_compute; discriminate).
    lia.
Qed.

Lemma allUsed_exhausted :
  exhausted CURATED_WORDS (usedWords allUsed)
  /\ exhausted (concat DYNAMIC_WORD_POOLS) (usedWords allUsed)
  /\ exhausted randomWords (usedWords allUsed).
Proof.
  unfold allUsed. cbn [usedWords].
  split; [|split]; apply exhausted_of_subset; intros x Hx;
    apply elem_of_list_to_set; rewrite !elem_of_app; auto.
Qed.

End WordServiceFacts.

Import WordService WordServiceSpec WordServiceFacts.

(** C3 as worded fails: with an API that answers 404 to every request, a
    fresh instance asks for its first candidate only and returns a fallback
    word at once; no second candidate is tried. *)
Lemma failed_fetch_tries_no_other_candidate :
  fst (chooseCandidate notFound fresh) = Some "HOUSE"
  /\ definitionOf (responseFor notFound fresh "HOUSE") = None
  /\ fst (WordService.getRandomWordWithDefinition notFound fresh)
     = Some (fallbackAt 7 0)
  /\ requests (snd (WordService.getRandomWordWithDefinition notFound fresh))
     = ["house"]
  /\ ~ (2 <= List.length
              (requests
                 (snd (WordService.getRandomWordWithDefinition notFound fresh)))).
Proof.
  pose proof (chooseCandidate_unused notFound fresh eq_refl) as E.
  change (nth_error CURATED_WORDS _) with (Some "HOUSE") in E.
  pose proof (getRandomWordWithDefinition_spec notFound fresh "HOUSE" _ E
                eq_refl) as R.
  change (definitionOf _) with (@None string) in R. cbv iota in R.
  rewrite R, E. cbn [fst snd requests tick].
  split; [reflexivity|]. split; [reflexivity|]. split; [reflexivity|].
  split; [reflexivity|]. simpl. lia.
Qed.

(** C3 (amended).  A call chooses one candidate, from the curated list, or
    from the dynamic pools when the curated list is exhausted, or from the
    generic list when both are, and sends exactly one request, for that
    candidate.  When the definition fetch fails the candidate is not tried
    again and no other candidate is tried: the call returns one of the
    three fixed fallback words. *)
Theorem failed_fetch_goes_to_fallback (e : Env) (w : World) :
  exists x used1,
    chooseCandidate e w = (Some x, mkWorld used1 (S (draws w)) (requests w))
    /\ chosenBy (usedWords w) x used1
    /\ requests (snd (WordService.getRandomWordWithDefinition e w))
       = (requests w ++ [toLowerCase x])%list
    /\ (definitionOf (responseFor e w x) = None ->
        exists i, i < 3
                  /\ fst (WordService.getRandomWordWithDefinition e w)
                     = Some (fallbackAt (now e) i)).
Proof.
  destruct (chooseCandidate_spec e w) as (x & used1 & E & Ht & Hc).
  exists x, used1. split; [exact E|]. split; [exact Hc|].
  rewrite (getRandomWordWithDefinition_spec e w x _ E Ht).
  change (responseFor e (mkWorld used1 (S (draws w)) (requests w)) x)
    with (responseFor e w x).
  destruct (definitionOf (responseFor e w x)) as [text|].
  - split; [reflexivity | discriminate].
  - split; [reflexivity|]. intros _. eexists. split; [|reflexivity].
    apply Nat.mod_upper_bound. discriminate.
Qed.

(** The fallback on a fresh instance whose API answers 404. *)
Lemma failed_fetch_goes_to_fallback_witness :
  definitionOf (responseFor notFound fresh "HOUSE") = None
  /\ exists x i,
      fst (chooseCandidate notFound fresh) = Some x
      /\ i < 3
      /\ fst (WordService.getRandomWordWithDefinition notFound fresh)
         = Some (fallbackAt 7 i).
Proof.
  split; [reflexivity|].
  destruct (failed_fetch_goes_to_fallback notFound fresh)
    as (x & used1 & E & _ & _ & Hfail).
  destruct (Hfail eq_refl) as (i & Hi & Hr).
  exists x, i. rewrite E. auto.
Defined.

(** The three fallback words are valid words. *)
Lemma fallbackAt_valid now i :
  i < 3 -> validWord (fallbackAt now i) /\ isFallback now (fallbackAt now i).
Proof.
  intros Hi. unfold isFallback.
  destruct i as [|[|[|i]]]; [| | |lia];
    (split; [repeat split; try discriminate; vm_compute; auto | auto]).
Qed.

Lemma categorizeWordDifficulty_cases x :
  categorizeWordDifficulty x = "easy" \/ categorizeWordDifficulty x = "medium"
  \/ categorizeWordDifficulty x = "hard".
Proof. unfold categorizeWordDifficulty. repeat case_match; auto. Qed.

Lemma truthy_toUpperCase x : truthy (Some x) = true -> Js.toUpperCase x <> "".
Proof. destruct x; [discriminate|]. intros _. discriminate. Qed.

(** C6.  Every failure of the definition lookup (network error, status
    that is not a success, body without entry or meanings, no definition
    in the length band) is the answer [null] of [fetchDefinitionFromAPI],
    and [getRandomWordWithDefinition] returns a valid word in every world:
    never [null], and no exception, the model being a total function.
    When the lookup for the candidate fails, the word returned is one of
    the three hardcoded fallback words with its inline definition. *)
Theorem lookup_failure_yields_a_word (e : Env) (w : World) :
  (forall r, LookupFailure r -> definitionOf r = None)
  /\ exists x r,
      fst (chooseCandidate e w) = Some x
      /\ fst (WordService.getRandomWordWithDefinition e w) = Some r
      /\ validWord r
      /\ (LookupFailure (responseFor e w x) -> isFallback (now e) r).
Proof.
  split; [exact lookup_failure_is_null|].
  destruct (chooseCandidate_spec e w) as (x & used1 & E & Ht & _).
  exists x. rewrite (getRandomWordWithDefinition_spec e w x _ E Ht), E.
  change (responseFor e (mkWorld used1 (S (draws w)) (requests w)) x)
    with (responseFor e w x).
  destruct (definitionOf (responseFor e w x)) as [text|] eqn:Ed.
  - eexists. split; [reflexivity|]. split; [reflexivity|]. split.
    + repeat split; cbn [word definition difficulty].
      * apply truthy_toUpperCase, Ht.
      * apply JsFacts.toUpperCase_twice.
      * apply definitionOf_inBand in Ed. destruct text; discriminate.
      * apply categorizeWordDifficulty_cases.
    + intros Hf. apply lookup_failure_is_null in Hf. congruence.
  - eexists. split; [reflexivity|]. split; [reflexivity|].
    assert (random e (S (draws w)) mod 3 < 3) as Hi
        by (apply Nat.mod_upper_bound; discriminate).
    cbn [draws].
    destruct (fallbackAt_valid (now e) _ Hi) as [Hv Hfb]. auto.
Qed.

(** A status that is not a success, on a fresh instance. *)
Lemma lookup_failure_yields_a_word_witness :
  LookupFailure (responseFor notFound fresh "HOUSE")
  /\ exists r,
      fst (WordService.getRandomWordWithDefinition notFound fresh) = Some r
      /\ validWord r /\ isFallback 7 r.
Proof.
  assert (forall x, LookupFailure (responseFor notFound fresh x)) as Hf
      by (intros x; apply failStatus; reflexivity).
  split; [apply Hf|].
  destruct (lookup_failure_yields_a_word notFound fresh)
    as (_ & x & r & _ & Hr & Hv & Hfb).
  exists r. split; [exact Hr|]. split; [exact Hv|]. apply Hfb, Hf.
Defined.

(** C9 as worded fails: once every word of the three lists is marked, the
    call clears the used-words set before it draws its candidate, and a
    failed fetch leaves the set empty, not as it was. *)
Lemma failed_fetch_can_clear_used_words :
  fst (chooseCandidate offline allUsed) = Some "ANCIENT"
  /\ definitionOf (responseFor offline allUsed "ANCIENT") = None
  /\ fst (WordService.getRandomWordWithDefinition offline allUsed)
     = Some (fallbackAt 7 0)
  /\ "HOUSE" ∈ usedWords allUsed
  /\ usedWords (snd (WordService.getRandomWordWithDefinition offline allUsed))
     = ∅
  /\ usedWords (snd (WordService.getRandomWordWithDefinition offline allUsed))
     <> usedWords allUsed.
Proof.
  destruct allUsed_exhausted as (H1 & H2 & H3).
  pose proof (chooseCandidate_all_exhausted offline allUsed H1 H2 H3) as E.
  change (nth_error randomWords
            (random offline (draws allUsed) mod List.length randomWords))
    with (Some "ANCIENT") in E.
  pose proof (getRandomWordWithDefinition_spec offline allUsed "ANCIENT" _ E
                eq_refl) as R.
  change (definitionOf _) with (@None string) in R. cbv iota in R.
  assert ("HOUSE" ∈ usedWords allUsed) as Hin.
  { unfold allUsed, usedWords. apply elem_of_list_to_set, elem_of_app.
    left. unfold CURATED_WORDS. left. }
  rewrite R, E. cbn [fst snd usedWords].
  split; [reflexivity|]. split; [reflexivity|]. split; [reflexivity|].
  split; [exact Hin|]. split; [reflexivity|].
  intros H. rewrite <- H in Hin.
  exact (not_elem_of_empty (C:=gset string) "HOUSE" Hin).
Qed.

(** C9 (amended).  When the definition fetch for the chosen candidate
    fails, the call adds nothing to the used-words set: neither the failed
    candidate nor the fallback word it returns.  The set is left as it
    was, except when the three lists are exhausted, where it is left
    empty; in both cases the failed candidate is not in it.  The same
    fallback word can be returned by two consecutive calls. *)
Theorem failed_fetch_marks_nothing :
  (fst (WordService.getRandomWordWithDefinition offline fresh)
   = Some (fallbackAt 7 0)
   /\ fst (WordService.getRandomWordWithDefinition offline
             (snd (WordService.getRandomWordWithDefinition offline fresh)))
      = Some (fallbackAt 7 0)
   /\ word (fallbackAt 7 0) = "MAGNIFICENT"
   /\ usedWords (snd (WordService.getRandomWordWithDefinition offline fresh))
      = ∅)
  /\ forall (e : Env) (w : World),
      exists x,
        fst (chooseCandidate e w) = Some x
        /\ (definitionOf (responseFor e w x) = None ->
            let used' :=
              usedWords (snd (WordService.getRandomWordWithDefinition e w)) in
            (x ∉ used')
            /\ (used' ⊆ usedWords w)
            /\ (used' = usedWords w
                \/ (exhausted CURATED_WORDS (usedWords w)
                    /\ exhausted (concat DYNAMIC_WORD_POOLS) (usedWords w)
                    /\ exhausted randomWords (usedWords w)
                    /\ used' = ∅))).
Proof.
  split.
  - pose proof (chooseCandidate_unused offline fresh eq_refl) as E.
    change (nth_error CURATED_WORDS _) with (Some "HOUSE") in E.
    pose proof (getRandomWordWithDefinition_spec offline fresh "HOUSE" _ E
                  eq_refl) as R.
    change (definitionOf _) with (@None string) in R. cbv iota in R.
    rewrite R. cbn [fst snd].
    pose proof (chooseCandidate_unused offline
                  (mkWorld ∅ 2 ([] ++ [Js.toLowerCase "HOUSE"])) eq_refl) as E'.
    change (nth_error CURATED_WORDS _) with (Some "HOUSE") in E'.
    pose proof (getRandomWordWithDefinition_spec offline _ "HOUSE" _ E'
                  eq_refl) as R'.
    change (definitionOf _) with (@None string) in R'. cbv iota in R'.
    split; [reflexivity|]. split; [|split; reflexivity].
    etransitivity; [apply (f_equal fst); exact R'|]. reflexivity.
  - intros e w.
    destruct (chooseCandidate_spec e w) as (x & used1 & E & Ht & Hc).
    exists x. rewrite E. split; [reflexivity|]. intros Hnone.
    rewrite (getRandomWordWithDefinition_spec e w x _ E Ht).
    change (responseFor e (mkWorld used1 (S (draws w)) (requests w)) x)
      with (responseFor e w x).
    rewrite Hnone. cbn [snd usedWords].
    destruct Hc as [(_ & Hnot & ->)|[(_ & _ & Hnot & ->)
                   |[(_ & _ & _ & Hnot & ->)|(H1 & H2 & H3 & _ & ->)]]];
      try (split; [exact Hnot|]; split; [reflexivity|]; left; reflexivity).
    split; [set_solver|]. split; [set_solver|]. right. auto.
Qed.

(** A failed fetch on a fresh instance with the API down. *)
Lemma failed_fetch_marks_nothing_witness :
  definitionOf (responseFor offline fresh "HOUSE") = None
  /\ exists x,
      fst (chooseCandidate offline fresh) = Some x
      /\ (x ∉ usedWords
                (snd (WordService.getRandomWordWithDefinition offline fresh)))
      /\ usedWords (snd (WordService.getRandomWordWithDefinition offline fresh))
           ⊆ usedWords fresh.
Proof.
  split; [reflexivity|].
  destruct failed_fetch_marks_nothing as [_ H].
  destruct (H offline fresh) as (x & E & Hfail).
  destruct (Hfail eq_refl) as (Hnot & Hsub & _).
  exists x. auto.
Defined.

(* ===================================================================== *)
(** * Further properties of the frequency-database service *)
(* ===================================================================== *)

Module SelectionFacts.
Import Js JsFacts EnhancedWordService EnhancedSpec EnhancedFacts Runs.

Section Database.
Variable DB : list DbWord.

(** What [getWordByDifficulty] returns, whatever the number of frames: a
    word of the pool, marked in a set that is the one given or the one the
    reset left. *)
Lemma getWordByDifficulty_result depth d draw now used r used' :
  getWordByDifficulty DB depth d draw now used = Returned r used' ->
  exists e u0,
    (e ∈ wordPool DB d) /\ r = Some (toWord now e)
    /\ used' = {[db_word e]} ∪ u0 /\ (db_word e ∉ u0)
    /\ (u0 = used \/ u0 = used ∖ list_to_set (wordsOf (wordPool DB d))).
Proof.
  destruct depth as [|depth]; [discriminate|].
  destruct (available (wordPool DB d) used) as [|first rest] eqn:E.
  - rewrite (getWordByDifficulty_retry _ _ _ _ _ _ E).
    destruct depth as [|depth]; [discriminate|].
    destruct (wordPool DB d) as [|p pool] eqn:Ep.
    + rewrite getWordByDifficulty_empty_pool by exact Ep. discriminate.
    + rewrite <- Ep in *.
      erewrite getWordByDifficulty_pick
        by (rewrite available_deleteAll, Ep; reflexivity).
      rewrite available_deleteAll. intros [= <- <-].
      assert (randomOf p (wordPool DB d) draw ∈ wordPool DB d) as Hin
          by (apply randomOf_elem; congruence).
      exists (randomOf p (wordPool DB d) draw), (deleteAll (wordPool DB d) used).
      split; [exact Hin|]. split; [reflexivity|]. split; [reflexivity|].
      rewrite deleteAll_spec. split; [|right; reflexivity].
      apply elem_of_wordsOf in Hin. set_solver.
  - erewrite getWordByDifficulty_pick by (rewrite E; reflexivity).
    rewrite E. intros [= <- <-].
    assert (randomOf first (first :: rest) draw
              ∈ available (wordPool DB d) used) as Hin
        by (rewrite E; apply randomOf_elem; discriminate).
    apply elem_of_available in Hin as [Hnot Hin].
    exists (randomOf first (first :: rest) draw), used.
    split; [exact Hin|]. split; [reflexivity|]. split; [reflexivity|].
    split; [exact Hnot | left; reflexivity].
Qed.

(** The same for [getRandomWordWithDefinition]. *)
Lemma getRandomWordWithDefinition_result depth draw now used r used' :
  EnhancedWordService.getRandomWordWithDefinition DB depth draw now used
  = Returned r used' ->
  exists e u0,
    (e ∈ DB) /\ r = Some (toWord now e)
    /\ used' = {[db_word e]} ∪ u0 /\ (db_word e ∉ u0)
    /\ (u0 = used \/ u0 = ∅).
Proof.
  destruct depth as [|depth]; [discriminate|].
  destruct (available DB used) as [|first rest] eqn:E.
  - rewrite (getRandomWordWithDefinition_retry _ _ _ _ _ E).
    destruct depth as [|depth]; [discriminate|].
    cbn [EnhancedWordService.getRandomWordWithDefinition].
    rewrite available_empty.
    destruct DB as [|p pool] eqn:Ep.
    + rewrite getRandomWordWithDefinition_empty_database by reflexivity.
      discriminate.
    + rewrite <- Ep. intros [= <- <-].
      exists (randomOf p DB draw), ∅.
      split; [apply randomOf_elem; congruence|].
      split; [reflexivity|]. split; [reflexivity|].
      split; [apply not_elem_of_empty | right; reflexivity].
  - cbn [EnhancedWordService.getRandomWordWithDefinition]. rewrite E.
    intros [= <- <-].
    assert (randomOf first (first :: rest) draw ∈ available DB used) as Hin
        by (rewrite E; apply randomOf_elem; discriminate).
    apply elem_of_available in Hin as [Hnot Hin].
    exists (randomOf first (first :: rest) draw), used.
    split; [exact Hin|]. split; [reflexivity|]. split; [reflexivity|].
    split; [exact Hnot | left; reflexivity].
Qed.

(** What [getSmartWordSelection] leaves. *)
Lemma getSmartWordSelection_result seen d draw now used :
  (smartWord (getSmartWordSelection DB seen d draw now used) = None
   /\ smartUsed (getSmartWordSelection DB seen d draw now used) = ∅
   /\ wordPool DB d = [])
  \/ exists e u0,
      (e ∈ wordPool DB d)
      /\ smartWord (getSmartWordSelection DB seen d draw now used)
         = Some (toWord now e)
      /\ smartUsed (getSmartWordSelection DB seen d draw now used)
         = {[db_word e]} ∪ u0
      /\ (u0 = used \/ u0 = ∅).
Proof.
  destruct (unseen (wordPool DB d) seen used) as [|first rest] eqn:E.
  - rewrite (getSmartWordSelection_all_seen DB _ _ _ _ _ E).
    destruct (wordPool DB d) as [|p pool] eqn:Ep; [left; auto|].
    right. rewrite <- Ep.
    exists (randomOf p (wordPool DB d) draw), ∅.
    split; [apply randomOf_elem; congruence | auto].
  - right. rewrite (getSmartWordSelection_unseen DB _ _ _ _ _ _ _ E).
    assert (randomOf first (first :: rest) draw
              ∈ unseen (wordPool DB d) seen used) as Hin
        by (rewrite E; apply randomOf_elem; discriminate).
    apply elem_of_unseen in Hin as [_ Hin].
    exists (randomOf first (first :: rest) draw), used. auto.
Qed.

(** The entries of a tier carry the tier's database difficulty. *)
Lemma elem_of_byDifficulty e c : e ∈ byDifficulty DB c -> db_difficulty e = c.
Proof.
  unfold byDifficulty. intros (i & Hi & _)%elem_of_take.
  apply list_elem_of_lookup_2 in Hi.
  apply (list_elem_of_filter (fun w => db_difficulty w = c)) in Hi.
  apply Hi.
Qed.

Lemma length_byDifficulty c : List.length (byDifficulty DB c) <= 200.
Proof. unfold byDifficulty. rewrite length_take. lia. Qed.

End Database.

End SelectionFacts.

Import Js JsFacts EnhancedWordService EnhancedSpec EnhancedFacts Runs
       SelectionFacts.

(** X1.  A word selected for the tier easy, medium or hard carries that
    difficulty, whether [getWordByDifficulty] or [getSmartWordSelection]
    selects it, and whatever was seen before; and the pool of a tier holds
    at most 200 entries. *)
Theorem requested_tier_is_returned
        (DB : list DbWord) (d : string) (seen : list string)
        (depth draw : nat) (now : Z) (used : gset string) :
  d = "easy" \/ d = "medium" \/ d = "hard" ->
  (forall r used',
      getWordByDifficulty DB depth d draw now used = Returned (Some r) used' ->
      difficulty r = d)
  /\ (forall r,
         smartWord (getSmartWordSelection DB seen d draw now used) = Some r ->
         difficulty r = d)
  /\ List.length (wordPool DB d) <= 200.
Proof.
  intros Hd.
  assert (forall e, e ∈ wordPool DB d -> difficulty (toWord now e) = d)
    as Htier.
  { intros e He.
    destruct Hd as [-> | [-> | ->]];
      apply elem_of_byDifficulty in He; cbn; rewrite He; reflexivity. }
  split; [|split].
  - intros r used' E.
    apply getWordByDifficulty_result in E as (e & u0 & Hin & [= ->] & _).
    apply Htier, Hin.
  - intros r E.
    destruct (getSmartWordSelection_result DB seen d draw now used)
      as [(Hnone & _)|(e & u0 & Hin & Hw & _)]; [congruence|].
    rewrite Hw in E. injection E as <-. apply Htier, Hin.
  - destruct Hd as [-> | [-> | ->]]; apply length_byDifficulty.
Qed.

(** The tier of the built-in list: an easy word is asked, HOUSE comes. *)
Lemma requested_tier_is_returned_witness :
  exists r used',
    getWordByDifficulty getFallbackWordList 1 "easy" 0 0 ∅
    = Returned (Some r) used'
    /\ difficulty r = "easy".
Proof.
  destruct (requested_tier_is_returned getFallbackWordList "easy" [] 1 0 0 ∅)
    as (H & _); [left; reflexivity|].
  eexists _, _. split; [reflexivity|]. eapply H. reflexivity.
Defined.

(** The number of entries over three difficulties that exclude each
    other. *)
Lemma length_three_tiers (DB : list DbWord) :
  List.length (filter (fun w => db_difficulty w = "common") DB)
  + List.length (filter (fun w => db_difficulty w = "moderate") DB)
  + List.length (filter (fun w => db_difficulty w = "expert") DB)
  <= List.length DB.
Proof.
  induction DB as [|a l IH]; [reflexivity|].
  rewrite !filter_cons. cbn [List.length].
  repeat case_decide; cbn [List.length]; try lia; congruence.
Qed.

Lemma size_list_to_set_le (l : list string) :
  size (list_to_set l : gset string) <= List.length l.
Proof.
  induction l as [|a l IH];
    [rewrite list_to_set_nil, size_empty; reflexivity|].
  rewrite list_to_set_cons. cbn [List.length].
  rewrite size_union_alt, size_singleton.
  assert ((list_to_set l : gset string) ∖ {[a]} ⊆ list_to_set l) as Hsub
      by set_solver.
  apply subseteq_size in Hsub. lia.
Qed.

(** Only words of the database are ever marked as seen. *)
Lemma reachable_within (DB : list DbWord) (u : gset string) :
  Reachable DB u -> u ⊆ list_to_set (wordsOf DB).
Proof.
  induction 1 as [|depth draw now u r u' _ IH E|depth d draw now u r u' _ IH E
                  |seen d draw now u _ IH|u _ IH].
  - set_solver.
  - apply getRandomWordWithDefinition_result in E
      as (e & u0 & Hin & _ & -> & _ & Hu0).
    apply elem_of_wordsOf in Hin. destruct Hu0 as [-> | ->]; set_solver.
  - apply getWordByDifficulty_result in E
      as (e & u0 & Hin & _ & -> & _ & Hu0).
    apply elem_of_wordPool, elem_of_wordsOf in Hin.
    destruct Hu0 as [-> | ->]; set_solver.
  - destruct (getSmartWordSelection_result DB seen d draw now u)
      as [(_ & -> & _)|(e & u0 & Hin & _ & -> & Hu0)]; [set_solver|].
    apply elem_of_wordPool, elem_of_wordsOf in Hin.
    destruct Hu0 as [-> | ->]; set_solver.
  - unfold resetUsedWords. set_solver.
Qed.

(** X2.  In every state an instance can reach from its start, through any
    calls of the three selection methods and of [resetUsedWords], every
    word marked as seen is a word of the database, so [getWordStats]
    reports a [used] that is at most [total]; its three tier counts are at
    most 200 each and at most [total] together. *)
Theorem stats_are_consistent (DB : list DbWord) (u : gset string) :
  Reachable DB u ->
  (forall x, x ∈ u -> exists e, (e ∈ DB) /\ db_word e = x)
  /\ used (getWordStats DB u) <= total (getWordStats DB u)
  /\ common (getWordStats DB u) <= 200
  /\ moderate (getWordStats DB u) <= 200
  /\ expert (getWordStats DB u) <= 200
  /\ common (getWordStats DB u) + moderate (getWordStats DB u)
     + expert (getWordStats DB u) <= total (getWordStats DB u).
Proof.
  intros Hr. pose proof (reachable_within DB u Hr) as Hsub.
  split; [|split; [|split; [|split; [|split]]]]; cbn.
  - intros x Hx. apply Hsub, elem_of_list_to_set in Hx.
    apply list_elem_of_fmap in Hx as (e & -> & He). eauto.
  - pose proof (subseteq_size _ _ Hsub) as Hs.
    pose proof (size_list_to_set_le (wordsOf DB)) as Hl.
    unfold wordsOf in Hl at 2. rewrite length_fmap in Hl. lia.
  - apply length_byDifficulty.
  - apply length_byDifficulty.
  - apply length_byDifficulty.
  - pose proof (length_three_tiers DB).
    unfold WORDS_BY_DIFFICULTY_easy, WORDS_BY_DIFFICULTY_medium,
      WORDS_BY_DIFFICULTY_hard, byDifficulty.
    rewrite !length_take. lia.
Qed.

(** The state after one call on the built-in list. *)
Lemma stats_are_consistent_witness :
  Reachable getFallbackWordList {[ "HOUSE" ]}
  /\ used (getWordStats getFallbackWordList {[ "HOUSE" ]})
     <= total (getWordStats getFallbackWordList {[ "HOUSE" ]}).
Proof.
  assert (Reachable getFallbackWordList {[ "HOUSE" ]}) as Hr.
  { replace ({[ "HOUSE" ]} : gset string) with ({[ "HOUSE" ]} ∪ ∅ : gset string)
      by apply (right_id_L ∅ (∪)).
    eapply reachRandom with (depth := 1) (draw := 0) (now := 0%Z) (u := ∅);
      [apply reachStart | reflexivity]. }
  split; [exact Hr|].
  apply (stats_are_consistent getFallbackWordList {[ "HOUSE" ]} Hr).
Defined.

(* ===================================================================== *)
(** * Consecutive selections *)
(* ===================================================================== *)

Module CycleFacts.
Import Js EnhancedWordService EnhancedSpec EnhancedFacts Runs SelectionFacts.

Lemma NoDup_wordsOf_filter (P : DbWord -> Prop) `{forall x, Decision (P x)}
      (l : list DbWord) :
  NoDup (wordsOf l) -> NoDup (wordsOf (filter P l)).
Proof.
  unfold wordsOf. induction l as [|a l IH]; [auto|].
  rewrite fmap_cons, NoDup_cons. intros [Ha Hl].
  rewrite filter_cons. case_decide; [|auto].
  rewrite fmap_cons, NoDup_cons. split; [|auto].
  intros (e & He & Hin)%list_elem_of_fmap. apply Ha.
  apply list_elem_of_fmap. exists e. split; [exact He|].
  apply list_elem_of_filter in Hin. apply Hin.
Qed.

(** Among entries whose words are all different, leaving out the word of
    one entry leaves out that entry alone. *)
Lemma length_without (l : list DbWord) (e : DbWord) :
  NoDup (wordsOf l) -> e ∈ l ->
  S (List.length (filter (fun x => db_word x <> db_word e) l))
  = List.length l.
Proof.
  unfold wordsOf. induction l as [|a l IH]; intros Hnd Hin.
  - apply elem_of_nil in Hin. destruct Hin.
  - rewrite fmap_cons, NoDup_cons in Hnd. destruct Hnd as [Ha Hl].
    destruct (decide (db_word a = db_word e)) as [Heq|Hne].
    + rewrite filter_cons_False by (intros Hn; apply Hn, Heq).
      rewrite filter_all; [reflexivity|].
      intros x Hx Hxe. apply Ha. rewrite Heq, <- Hxe.
      apply list_elem_of_fmap_2, Hx.
    + rewrite filter_cons_True by exact Hne. cbn [List.length].
      f_equal. apply IH; [exact Hl|].
      apply elem_of_cons in Hin as [->|Hin]; [congruence | exact Hin].
Qed.

Lemma available_mark pool (w : string) (used : gset string) :
  available pool ({[w]} ∪ used)
  = filter (fun x => db_word x <> w) (available pool used).
Proof.
  unfold available. rewrite list_filter_filter. apply list_filter_iff.
  intros x. set_solver.
Qed.

Section Cycle.
Variable pool : list DbWord.
Variable now : Z.
Variable call : nat -> gset string -> Outcome.

(** The calls considered: with something available, the call marks and
    returns an available entry. *)
Hypothesis call_picks :
  forall draw used,
    available pool used <> [] ->
    exists e, (e ∈ available pool used)
              /\ call draw used
                 = Returned (Some (toWord now e)) ({[db_word e]} ∪ used).

Hypothesis pool_NoDup : NoDup (wordsOf pool).

Lemma callMany_distinct draws used :
  List.length draws <= List.length (available pool used) ->
  exists rs,
    callMany call draws used = Some (rs, list_to_set (word <$> rs) ∪ used)
    /\ NoDup (word <$> rs)
    /\ (forall x, x ∈ word <$> rs -> x ∈ wordsOf (available pool used))
    /\ List.length rs = List.length draws.
Proof.
  revert used. induction draws as [|draw ds IH]; intros used Hlen.
  - exists []. cbn. rewrite (left_id_L ∅ (∪)).
    split; [reflexivity|]. split; [constructor|].
    split; [|reflexivity]. intros x Hx. apply elem_of_nil in Hx. destruct Hx.
  - assert (available pool used <> []) as Hne.
    { intros E. rewrite E in Hlen. cbn in Hlen. lia. }
    destruct (call_picks draw used Hne) as (e & Hin & Hcall).
    assert (S (List.length (available pool ({[db_word e]} ∪ used)))
            = List.length (available pool used)) as Hless.
    { rewrite available_mark. apply length_without; [|exact Hin].
      apply NoDup_wordsOf_filter, pool_NoDup. }
    destruct (IH ({[db_word e]} ∪ used)) as (rs & Hrun & Hnd & Hsub & Hl).
    { cbn [List.length] in Hlen. lia. }
    exists (toWord now e :: rs). cbn [callMany]. rewrite Hcall, Hrun.
    rewrite fmap_cons, word_toWord.
    split; [f_equal; f_equal; rewrite list_to_set_cons; set_solver|].
    split; [|split; [|cbn [List.length]; congruence]].
    + apply NoDup_cons. split; [|exact Hnd]. intros Hx.
      apply Hsub, list_elem_of_fmap in Hx as (x & Hw & Hx).
      apply elem_of_available in Hx as [Hx _]. rewrite <- Hw in Hx.
      set_solver.
    + intros x [->|Hx]%elem_of_cons.
      * apply elem_of_wordsOf, Hin.
      * apply Hsub, list_elem_of_fmap in Hx as (y & -> & Hy).
        apply elem_of_wordsOf. apply elem_of_available in Hy as [Hy Hp].
        apply elem_of_available. split; [set_solver | exact Hp].
Qed.

(** As many calls as the pool has entries, none of them seen: every word
    of the pool comes, once. *)
Lemma callMany_whole_pool draws used rs final :
  List.length draws = List.length pool ->
  List.length draws <= List.length (available pool used) ->
  callMany call draws used = Some (rs, final) ->
  word <$> rs ≡ₚ wordsOf pool.
Proof.
  intros Hall Hlen Hrun.
  destruct (callMany_distinct draws used Hlen) as (rs' & Hrun' & Hnd & Hsub & Hl).
  rewrite Hrun in Hrun'. injection Hrun' as -> _.
  apply submseteq_length_Permutation.
  - apply NoDup_submseteq; [exact Hnd|]. intros x Hx.
    apply Hsub, list_elem_of_fmap in Hx as (y & -> & Hy).
    apply elem_of_wordsOf. apply elem_of_available in Hy. apply Hy.
  - unfold wordsOf. rewrite !length_fmap. lia.
Qed.

End Cycle.

Lemma getWordByDifficulty_picks DB depth d now draw used :
  available (wordPool DB d) used <> [] ->
  exists e, (e ∈ available (wordPool DB d) used)
            /\ getWordByDifficulty DB (S depth) d draw now used
               = Returned (Some (toWord now e)) ({[db_word e]} ∪ used).
Proof.
  intros Hne.
  destruct (available (wordPool DB d) used) as [|first rest] eqn:E;
    [congruence|].
  exists (randomOf first (first :: rest) draw).
  split; [apply randomOf_elem; discriminate|].
  erewrite getWordByDifficulty_pick by (rewrite E; reflexivity).
  rewrite E. reflexivity.
Qed.

Lemma getRandomWordWithDefinition_picks DB depth now draw used :
  available DB used <> [] ->
  exists e, (e ∈ available DB used)
            /\ EnhancedWordService.getRandomWordWithDefinition
                 DB (S depth) draw now used
               = Returned (Some (toWord now e)) ({[db_word e]} ∪ used).
Proof.
  intros Hne. destruct (available DB used) as [|first rest] eqn:E;
    [congruence|].
  exists (randomOf first (first :: rest) draw).
  split; [apply randomOf_elem; discriminate|].
  cbn [EnhancedWordService.getRandomWordWithDefinition]. rewrite E.
  reflexivity.
Qed.

End CycleFacts.

Import CycleFacts.

(** X3.  With a pool whose words are all different, consecutive calls of
    [getWordByDifficulty] for one tier, no more of them than entries of
    the pool are unseen, each return, in one frame and without any reset,
    a word of the pool that was neither seen before nor returned by an
    earlier call, and mark it.  As many calls as the pool has entries
    return every word of the pool exactly once. *)
Theorem getWordByDifficulty_never_repeats
        (DB : list DbWord) (d : string) (depth : nat) (now : Z)
        (draws : list nat) (used : gset string) :
  NoDup (wordsOf (wordPool DB d)) ->
  List.length draws <= List.length (available (wordPool DB d) used) ->
  exists rs,
    callMany (fun draw u => getWordByDifficulty DB (S depth) d draw now u)
             draws used
    = Some (rs, list_to_set (word <$> rs) ∪ used)
    /\ List.length rs = List.length draws
    /\ NoDup (word <$> rs)
    /\ (forall x, x ∈ word <$> rs ->
                  (x ∈ wordsOf (wordPool DB d)) /\ (x ∉ used))
    /\ (List.length draws = List.length (wordPool DB d) ->
        word <$> rs ≡ₚ wordsOf (wordPool DB d)).
Proof.
  intros Hnd Hlen.
  pose proof (fun draw u => getWordByDifficulty_picks DB depth d now draw u)
    as Hpicks.
  destruct (callMany_distinct (wordPool DB d) now _ Hpicks Hnd draws used Hlen)
    as (rs & Hrun & Hnd' & Hsub & Hl).
  exists rs. split; [exact Hrun|]. split; [exact Hl|]. split; [exact Hnd'|].
  split.
  - intros x Hx. apply Hsub, list_elem_of_fmap in Hx as (y & -> & Hy).
    apply elem_of_available in Hy as [Hy Hp].
    split; [apply elem_of_wordsOf, Hp | exact Hy].
  - intros Hall.
    exact (callMany_whole_pool (wordPool DB d) now _ Hpicks Hnd draws used
                               rs _ Hall Hlen Hrun).
Qed.

(** Three calls on the built-in list, nothing seen. *)
Lemma getWordByDifficulty_never_repeats_witness :
  exists rs,
    callMany (fun draw u =>
                getWordByDifficulty getFallbackWordList 1 "easy" draw 0 u)
             [0; 0; 0] ∅
    = Some (rs, list_to_set (word <$> rs) ∪ ∅)
    /\ word <$> rs ≡ₚ ["HOUSE"; "WATER"; "SCHOOL"].
Proof.
  destruct (getWordByDifficulty_never_repeats getFallbackWordList "easy" 0 0
              [0; 0; 0] ∅) as (rs & Hrun & _ & _ & _ & Hperm).
  - change (wordsOf (wordPool getFallbackWordList "easy"))
      with ["HOUSE"; "WATER"; "SCHOOL"].
    repeat constructor; rewrite ?elem_of_cons, ?elem_of_nil;
      intuition discriminate.
  - rewrite available_empty. vm_compute. lia.
  - exists rs. split; [exact Hrun|]. apply Hperm. reflexivity.
Defined.

(** X4.  The same for [getRandomWordWithDefinition] over the whole
    database: with words all different, consecutive calls, no more of them
    than entries are unseen, return words of the database that were
    neither seen nor returned before, and as many calls as the database
    has entries return every word exactly once. *)
Theorem getRandomWordWithDefinition_never_repeats
        (DB : list DbWord) (depth : nat) (now : Z)
        (draws : list nat) (used : gset string) :
  NoDup (wordsOf DB) ->
  List.length draws <= List.length (available DB used) ->
  exists rs,
    callMany (fun draw u =>
                EnhancedWordService.getRandomWordWithDefinition
                  DB (S depth) draw now u)
             draws used
    = Some (rs, list_to_set (word <$> rs) ∪ used)
    /\ List.length rs = List.length draws
    /\ NoDup (word <$> rs)
    /\ (forall x, x ∈ word <$> rs -> (x ∈ wordsOf DB) /\ (x ∉ used))
    /\ (List.length draws = List.length DB -> word <$> rs ≡ₚ wordsOf DB).
Proof.
  intros Hnd Hlen.
  pose proof (fun draw u =>
                getRandomWordWithDefinition_picks DB depth now draw u)
    as Hpicks.
  destruct (callMany_distinct DB now _ Hpicks Hnd draws used Hlen)
    as (rs & Hrun & Hnd' & Hsub & Hl).
  exists rs. split; [exact Hrun|]. split; [exact Hl|]. split; [exact Hnd'|].
  split.
  - intros x Hx. apply Hsub, list_elem_of_fmap in Hx as (y & -> & Hy).
    apply elem_of_available in Hy as [Hy Hp].
    split; [apply elem_of_wordsOf, Hp | exact Hy].
  - intros Hall.
    exact (callMany_whole_pool DB now _ Hpicks Hnd draws used rs _ Hall
                               Hlen Hrun).
Qed.

(** Two calls on the built-in list with WATER seen. *)
Lemma getRandomWordWithDefinition_never_repeats_witness :
  exists rs,
    callMany (fun draw u =>
                EnhancedWordService.getRandomWordWithDefinition
                  getFallbackWordList 1 draw 0 u)
             [5; 7] {[ "WATER" ]}
    = Some (rs, list_to_set (word <$> rs) ∪ {[ "WATER" ]})
    /\ NoDup (word <$> rs)
    /\ (forall x, x ∈ word <$> rs -> x ∉ ({[ "WATER" ]} : gset string)).
Proof.
  destruct (getRandomWordWithDefinition_never_repeats getFallbackWordList 0 0
              [5; 7] {[ "WATER" ]}) as (rs & Hrun & _ & Hnd & Hsub & _).
  - change (wordsOf getFallbackWordList) with ["HOUSE"; "WATER"; "SCHOOL"].
    repeat constructor; rewrite ?elem_of_cons, ?elem_of_nil;
      intuition discriminate.
  - vm_compute. lia.
  - exists rs. split; [exact Hrun|]. split; [exact Hnd|].
    intros x Hx. apply Hsub, Hx.
Defined.

(* ===================================================================== *)
(** * Lookup by text, frequency ranges and levels *)
(* ===================================================================== *)

Module QueryFacts.
Import Js JsFacts EnhancedWordService EnhancedSpec EnhancedFacts Runs.

(** The index answers, for a key, the last entry stored under it. *)
Lemma wordIndex_from (l : list DbWord) (acc : gmap string DbWord) (k : string) :
  foldl (fun index w => <[db_word w := w]> index) acc l !! k
  = match last (filter (fun e => db_word e = k) l) with
    | Some e => Some e
    | None => acc !! k
    end.
Proof.
  revert acc. induction l as [|a l IH]; intros acc; [reflexivity|].
  cbn [foldl]. rewrite IH, filter_cons.
  destruct (decide (db_word a = k)) as [Ha|Ha].
  - rewrite last_cons.
    destruct (last (filter (fun e => db_word e = k) l)); [reflexivity|].
    rewrite <- Ha. apply lookup_insert_eq.
  - destruct (last (filter (fun e => db_word e = k) l)); [reflexivity|].
    apply lookup_insert_ne, Ha.
Qed.

Lemma wordIndex_lookup (DB : list DbWord) (k : string) :
  wordIndex DB !! k = last (filter (fun e => db_word e = k) DB).
Proof.
  unfold wordIndex. rewrite wordIndex_from, lookup_empty.
  destruct (last (filter (fun e => db_word e = k) DB)); reflexivity.
Qed.

Lemma filter_nothing {A} (P : A -> Prop) `{forall x, Decision (P x)}
      (l : list A) :
  (forall x, x ∈ l -> ~ P x) -> filter P l = [].
Proof.
  induction l as [|a l IH]; intros Hall; [reflexivity|].
  rewrite filter_cons_False by (apply Hall; left).
  apply IH. intros x Hx. apply Hall. right. exact Hx.
Qed.

(** Among entries whose words are all different, one entry carries a given
    word. *)
Lemma filter_same_word (l : list DbWord) (e : DbWord) :
  NoDup (wordsOf l) -> e ∈ l ->
  filter (fun x => db_word x = db_word e) l = [e].
Proof.
  unfold wordsOf. induction l as [|a l IH]; intros Hnd Hin.
  - apply elem_of_nil in Hin. destruct Hin.
  - rewrite fmap_cons, NoDup_cons in Hnd. destruct Hnd as [Ha Hl].
    assert (forall x, x ∈ l -> db_word x <> db_word a) as Hother.
    { intros x Hx Heq. apply Ha. rewrite <- Heq.
      apply list_elem_of_fmap_2, Hx. }
    apply elem_of_cons in Hin as [->|Hin].
    + rewrite filter_cons_True by reflexivity. f_equal.
      apply filter_nothing. exact Hother.
    + rewrite filter_cons_False
        by (intros Heq; apply (Hother e Hin); symmetry; exact Heq).
      apply IH; assumption.
Qed.

Lemma fmap_imap_const {A B C} (f : nat -> A -> B) (g : B -> C) (h : A -> C)
      (l : list A) :
  (forall k x, g (f k x) = h x) -> g <$> imap f l = h <$> l.
Proof.
  revert f. induction l as [|a l IH]; intros f Hf; [reflexivity|].
  cbn. rewrite Hf. f_equal. apply IH. intros k x. apply Hf.
Qed.

(** A listing says what the entries kept say, in their order. *)
Lemma fieldsOf_range DB ids lo hi :
  fieldsOf <$> getWordsByFrequencyRange DB ids lo hi
  = listedFields <$> inRange DB lo hi.
Proof.
  unfold getWordsByFrequencyRange. apply fmap_imap_const. reflexivity.
Qed.

Lemma elem_of_inRange DB lo hi e :
  e ∈ inRange DB lo hi
  <-> ((lo <= frequency_rank e)%Z /\ (frequency_rank e <= hi)%Z) /\ (e ∈ DB).
Proof.
  unfold inRange.
  exact (list_elem_of_filter
           (fun w => (lo <= frequency_rank w)%Z /\ (frequency_rank w <= hi)%Z)
           DB e).
Qed.

(** A range cut in two. *)
Lemma inRange_split DB lo mid hi :
  (lo <= mid + 1)%Z -> (mid <= hi)%Z ->
  inRange DB lo hi ≡ₚ inRange DB lo mid ++ inRange DB (mid + 1) hi.
Proof.
  intros Hlo Hhi. unfold inRange.
  induction DB as [|a l IH]; [reflexivity|].
  rewrite !filter_cons.
  repeat case_decide; try lia.
  - cbn. constructor. exact IH.
  - rewrite <- Permutation_middle. constructor. exact IH.
  - exact IH.
Qed.

End QueryFacts.

Import QueryFacts.

(** X5.  [getWordByText] answers with the last database entry stored under
    the upper-case form of the text asked, so the case of the text does not
    matter; it answers [null] exactly when no entry is stored under that
    form; and the word it returns is always in upper case: an entry stored
    with a lowercase letter in its word is never found. *)
Theorem getWordByText_finds_the_upper_case_entry
        (DB : list DbWord) (now : Z) (w : string) :
  getWordByText DB now w
  = toWord now <$> last (filter (fun e => db_word e = toUpperCase w) DB)
  /\ getWordByText DB now (toUpperCase w) = getWordByText DB now w
  /\ (getWordByText DB now w = None
      <-> forall e, e ∈ DB -> db_word e <> toUpperCase w)
  /\ (forall r, getWordByText DB now w = Some r ->
                toUpperCase (word r) = word r).
Proof.
  assert (getWordByText DB now w
          = toWord now
              <$> last (filter (fun e => db_word e = toUpperCase w) DB))
    as Hspec.
  { unfold getWordByText. rewrite wordIndex_lookup.
    destruct (last _); reflexivity. }
  split; [exact Hspec|]. split; [|split].
  - unfold getWordByText. rewrite toUpperCase_twice. reflexivity.
  - rewrite Hspec. rewrite fmap_None, last_None. split.
    + intros Hnil e He Heq.
      assert (e ∈ filter (fun e => db_word e = toUpperCase w) DB) as Hin
          by (apply (list_elem_of_filter
                       (fun e => db_word e = toUpperCase w)); auto).
      rewrite Hnil in Hin. apply elem_of_nil in Hin. exact Hin.
    + intros Hall.
      destruct (filter (fun e => db_word e = toUpperCase w) DB) as [|a l] eqn:E;
        [reflexivity|].
      assert (a ∈ filter (fun e => db_word e = toUpperCase w) DB) as Hin
          by (rewrite E; left).
      apply (list_elem_of_filter (fun e => db_word e = toUpperCase w)) in Hin
        as [Heq Hin].
      destruct (Hall a Hin Heq).
  - intros r. rewrite Hspec. intros (e & He & ->)%fmap_Some.
    apply last_Some_elem_of in He.
    apply (list_elem_of_filter (fun e => db_word e = toUpperCase w)) in He
      as [Heq _].
    rewrite word_toWord, Heq. apply toUpperCase_twice.
Qed.

(** X6.  In a database whose words are all different and in upper case, a
    word that [getRandomWordWithDefinition] or [getWordByDifficulty] has
    just returned is found again by [getWordByText], in any case of its
    letters, and the record found is the one returned. *)
Theorem returned_word_is_found_by_text
        (DB : list DbWord) (depth draw : nat) (now : Z) (d q : string)
        (used used' : gset string) (r : Word) :
  NoDup (wordsOf DB) ->
  upperCased DB ->
  EnhancedWordService.getRandomWordWithDefinition DB depth draw now used
  = Returned (Some r) used'
  \/ getWordByDifficulty DB depth d draw now used = Returned (Some r) used' ->
  toUpperCase q = word r ->
  getWordByText DB now q = Some r.
Proof.
  intros Hnd Hup Hret Hq.
  assert (exists e, (e ∈ DB) /\ r = toWord now e) as (e & He & ->).
  { destruct Hret as [E|E].
    - apply SelectionFacts.getRandomWordWithDefinition_result in E
        as (e & _ & He & [= ->] & _). eauto.
    - apply SelectionFacts.getWordByDifficulty_result in E
        as (e & _ & He & [= ->] & _).
      apply elem_of_wordPool in He. eauto. }
  unfold getWordByText. rewrite wordIndex_lookup, Hq, word_toWord.
  rewrite (filter_same_word DB e Hnd He). reflexivity.
Qed.

(** HOUSE, returned from the built-in list, asked again in lower case. *)
Lemma returned_word_is_found_by_text_witness :
  exists r used',
    EnhancedWordService.getRandomWordWithDefinition
      getFallbackWordList 1 0 0 ∅ = Returned (Some r) used'
    /\ word r = "HOUSE"
    /\ getWordByText getFallbackWordList 0 "house" = Some r.
Proof.
  eexists _, _. split; [reflexivity|]. split; [reflexivity|].
  eapply (returned_word_is_found_by_text getFallbackWordList 1 0 0 "" "house"
                                         ∅).
  - change (wordsOf getFallbackWordList) with ["HOUSE"; "WATER"; "SCHOOL"].
    repeat constructor; rewrite ?elem_of_cons, ?elem_of_nil;
      intuition discriminate.
  - intros e He. repeat (apply elem_of_cons in He as [->|He]; [reflexivity|]).
    apply elem_of_nil in He. destruct He.
  - left. reflexivity.
  - reflexivity.
Defined.

(** X7.  The three educational levels share out the entries ranked from 1
    to 60000: what [getEducationalWords] lists for any other level name is,
    ids and order apart, what it lists for elementary, intermediate and
    advanced together; no entry is listed for two of the three; and an
    entry ranked below 1 or above 60000 is listed for no level at all. *)
Theorem educational_levels_share_the_ranks
        (DB : list DbWord) (ids ids1 ids2 ids3 : nat -> QArith_base.Q)
        (level : string) :
  (level <> "elementary" -> level <> "intermediate" -> level <> "advanced" ->
   fieldsOf <$> getEducationalWords DB ids level
   ≡ₚ (fieldsOf <$> getEducationalWords DB ids1 "elementary")
      ++ (fieldsOf <$> getEducationalWords DB ids2 "intermediate")
      ++ (fieldsOf <$> getEducationalWords DB ids3 "advanced"))
  /\ (forall e,
         (e ∈ inRange DB 1 1000 ->
          (e ∉ inRange DB 1001 5000) /\ (e ∉ inRange DB 5001 60000))
         /\ (e ∈ inRange DB 1001 5000 -> e ∉ inRange DB 5001 60000))
  /\ (fieldsOf <$> getEducationalWords DB ids level
      = listedFields
          <$> inRange DB (fst (rankRange level)) (snd (rankRange level)))
  /\ (forall e, e ∈ inRange DB (fst (rankRange level)) (snd (rankRange level))
                -> (e ∈ DB)
                   /\ (1 <= frequency_rank e)%Z
                   /\ (frequency_rank e <= 60000)%Z).
Proof.
  split; [|split; [|split]].
  - intros H1 H2 H3. unfold getEducationalWords. rewrite !fieldsOf_range.
    assert (rankRange level = (1, 60000)%Z) as ->.
    { unfold rankRange.
      rewrite (proj2 (String.eqb_neq _ _) H1), (proj2 (String.eqb_neq _ _) H2),
        (proj2 (String.eqb_neq _ _) H3). reflexivity. }
    change (rankRange "elementary") with (1, 1000)%Z.
    change (rankRange "intermediate") with (1001, 5000)%Z.
    change (rankRange "advanced") with (5001, 60000)%Z.
    cbn [fst snd]. rewrite <- !fmap_app. apply fmap_Permutation.
    rewrite (inRange_split DB 1 1000 60000) by lia.
    apply Permutation_app_head.
    change 1001%Z with (1000 + 1)%Z.
    rewrite (inRange_split DB (1000 + 1) 5000 60000) by lia. reflexivity.
  - intros e. rewrite !elem_of_inRange. intuition lia.
  - apply fieldsOf_range.
  - intros e. rewrite elem_of_inRange. unfold rankRange.
    repeat case_match; cbn [fst snd]; intros [[? ?] ?]; repeat split;
      try assumption; lia.
Qed.

(** The levels of the built-in list, all of whose entries are ranked below
    1000. *)
Lemma educational_levels_share_the_ranks_witness :
  fieldsOf <$> getEducationalWords getFallbackWordList zeroIds "all"
  ≡ₚ (fieldsOf <$> getEducationalWords getFallbackWordList zeroIds
                                       "elementary")
     ++ (fieldsOf <$> getEducationalWords getFallbackWordList zeroIds
                                          "intermediate")
     ++ (fieldsOf <$> getEducationalWords getFallbackWordList zeroIds
                                          "advanced").
Proof.
  destruct (educational_levels_share_the_ranks getFallbackWordList
              zeroIds zeroIds zeroIds zeroIds "all") as (H & _).
  apply H; discriminate.
Defined.

(* ===================================================================== *)
(** * Properties of the callers *)
(* ===================================================================== *)

Module CallerFacts.
Import Js Storage.

Lemma includes_spec (arr : list string) (x : string) :
  includes arr x = true <-> x ∈ arr.
Proof.
  unfold includes. rewrite existsb_exists. split.
  - intros (y & Hy & ->%String.eqb_eq). apply list_elem_of_In, Hy.
  - intros Hx. exists x. split; [apply list_elem_of_In, Hx|].
    apply String.eqb_refl.
Qed.

End CallerFacts.

Import Routes Storage CallerFacts.
Import Js JsFacts EnhancedWordService EnhancedSpec EnhancedFacts SelectionFacts.

(** X8.  The routes for a random word and for a word of a difficulty never
    answer 404: their branch for no word cannot be taken.  The difficulty
    route answers 400 exactly for a name that is not easy, medium, hard or
    mixed; for these, with a pool that is not empty it answers 200 with a
    word of the pool, and with an empty pool it answers 500. *)
Theorem word_routes_never_answer_404
        (DB : list DbWord) (d : string) (depth draw : nat) (now : Z)
        (used : gset string) :
  status (randomRoute DB depth draw now used) <> 404%Z
  /\ status (difficultyRoute DB d depth draw now used) <> 404%Z
  /\ (status (difficultyRoute DB d depth draw now used) = 400%Z
      <-> d ∉ ["easy"; "medium"; "hard"; "mixed"])
  /\ (d ∈ ["easy"; "medium"; "hard"; "mixed"] ->
      (wordPool DB d = [] ->
       difficultyRoute DB d depth draw now used = internalError)
      /\ (wordPool DB d <> [] ->
          exists e, (e ∈ wordPool DB d)
                    /\ difficultyRoute DB d (S (S depth)) draw now used
                       = mkReply 200 (WordJson (toWord now e))))
  /\ (DB = [] -> randomRoute DB depth draw now used = internalError)
  /\ (DB <> [] ->
      exists e, (e ∈ DB)
                /\ randomRoute DB (S (S depth)) draw now used
                   = mkReply 200 (WordJson (toWord now e))).
Proof.
  assert (forall depth,
             status (difficultyRoute DB d depth draw now used) <> 404%Z
             /\ (status (difficultyRoute DB d depth draw now used) = 400%Z
                 <-> d ∉ ["easy"; "medium"; "hard"; "mixed"])) as Hdiff.
  { intros k. unfold difficultyRoute.
    destruct (includes ["easy"; "medium"; "hard"; "mixed"] d) eqn:Hinc;
      cbn [negb].
    - apply includes_spec in Hinc.
      destruct (getWordByDifficulty DB k d draw now used) as [r u|] eqn:E.
      + apply getWordByDifficulty_result in E as (e & _ & _ & -> & _).
        cbn. split; [discriminate|]. split; [discriminate | tauto].
      + cbn. split; [discriminate|]. split; [discriminate | tauto].
    - cbn. split; [discriminate|]. split; [|reflexivity].
      intros _ Hin%includes_spec. congruence. }
  split; [|split; [apply Hdiff|split; [apply Hdiff|split; [|split]]]].
  - unfold randomRoute.
    destruct (EnhancedWordService.getRandomWordWithDefinition
                DB depth draw now used) as [r u|] eqn:E; [|discriminate].
    apply getRandomWordWithDefinition_result in E as (e & _ & _ & -> & _).
    discriminate.
  - intros Hin%includes_spec. unfold difficultyRoute. rewrite Hin. cbn [negb].
    split.
    + intros Hnil. rewrite getWordByDifficulty_empty_pool by exact Hnil.
      reflexivity.
    + intros Hne.
      destruct (getWordByDifficulty_returns DB depth d draw now used Hne)
        as (e & used' & -> & He & _).
      exists e. auto.
  - intros ->. unfold randomRoute.
    rewrite getRandomWordWithDefinition_empty_database by reflexivity.
    reflexivity.
  - intros Hne. unfold randomRoute.
    destruct (getRandomWordWithDefinition_returns DB depth draw now used Hne)
      as (e & used' & -> & He & _).
    exists e. auto.
Qed.

(** The difficulty route on the built-in list: easy is served, hard is an
    internal error. *)
Lemma word_routes_never_answer_404_witness :
  (exists e, difficultyRoute getFallbackWordList "easy" 2 0 0 ∅
             = mkReply 200 (WordJson (toWord 0 e)))
  /\ difficultyRoute getFallbackWordList "hard" 2 0 0 ∅ = internalError.
Proof.
  split.
  - destruct (word_routes_never_answer_404 getFallbackWordList "easy" 0 0 0 ∅)
      as (_ & _ & _ & H & _).
    destruct H as [_ H]; [rewrite <- includes_spec; reflexivity|].
    destruct H as (e & _ & He); [vm_compute; discriminate|].
    exists e. exact He.
  - destruct (word_routes_never_answer_404 getFallbackWordList "hard" 2 0 0 ∅)
      as (_ & _ & _ & H & _).
    destruct H as [H _]; [rewrite <- includes_spec; reflexivity|].
    apply H. reflexivity.
Defined.


(* ===================================================================== *)
(** * Further properties of the API-backed service *)
(* ===================================================================== *)

Module WordServiceMore.
Import Js JsFacts Clean CleanFacts WordService WordServiceSpec WordServiceFacts.

Lemma length_mapChars f s : String.length (mapChars f s) = String.length s.
Proof. induction s as [|c r IH]; [reflexivity|]. cbn. rewrite IH. reflexivity. Qed.

(** No common word has more than five letters. *)
Lemma common_words_are_short x :
  includes commonWords x = true -> String.length x <= 5.
Proof.
  unfold includes. rewrite existsb_exists.
  intros (y & Hy & ->%String.eqb_eq).
  assert (forallb (fun z => (String.length z <=? 5)%nat) commonWords = true)
    as Hall by (vm_compute; reflexivity).
  rewrite forallb_forall in Hall. apply Nat.leb_le, Hall, Hy.
Qed.

Lemma categorize_byLength x :
  categorizeWordDifficulty x = byLength (String.length x).
Proof.
  unfold categorizeWordDifficulty, byLength.
  destruct (includes commonWords (toUpperCase x)) eqn:Hc; [|reflexivity].
  apply common_words_are_short in Hc.
  unfold toUpperCase in Hc. rewrite length_mapChars in Hc.
  apply Nat.leb_le in Hc. rewrite Hc. reflexivity.
Qed.

Lemma firstUsable_cons m rest :
  firstUsable (m :: rest)
  = match definitions m with
    | Some (d :: _) =>
        if inBand (cleanDefinition d) then Some (cleanDefinition d)
        else firstUsable rest
    | _ => firstUsable rest
    end.
Proof. reflexivity. Qed.

(** A definition the lookup answers is a cleaned one. *)
Lemma firstUsable_clean ms text :
  firstUsable ms = Some text ->
  exists ms1 m ms2 d ds,
    ms = (ms1 ++ m :: ms2)%list /\ definitions m = Some (d :: ds)
    /\ text = cleanDefinition d /\ inBand text = true
    /\ firstUsable ms1 = None.
Proof.
  induction ms as [|m ms IH]; [discriminate|]. rewrite firstUsable_cons.
  destruct (definitions m) as [[|d ds]|] eqn:Ed.
  - intros (ms1 & m' & ms2 & d & ds & -> & Hd & Ht & Hb & Hn)%IH.
    exists (m :: ms1), m', ms2, d, ds. rewrite firstUsable_cons, Ed. auto.
  - destruct (inBand (cleanDefinition d)) eqn:Hb.
    + intros [= <-]. exists [], m, ms, d, ds. auto.
    + intros (ms1 & m' & ms2 & d' & ds' & -> & Hd & Ht & Hb' & Hn)%IH.
      exists (m :: ms1), m', ms2, d', ds'.
      rewrite firstUsable_cons, Ed, Hb. auto.
  - intros (ms1 & m' & ms2 & d & ds & -> & Hd & Ht & Hb & Hn)%IH.
    exists (m :: ms1), m', ms2, d, ds. rewrite firstUsable_cons, Ed. auto.
Qed.

Lemma definitionOf_clean r text :
  definitionOf r = Some text ->
  exists status entry rest ms1 m ms2 d ds,
    r = HttpResponse status (Some (entry :: rest)) /\ ok status = true
    /\ meanings entry = Some (ms1 ++ m :: ms2)%list
    /\ definitions m = Some (d :: ds)
    /\ text = cleanDefinition d /\ inBand text = true
    /\ firstUsable ms1 = None.
Proof.
  destruct r as [|status [[|entry rest]|]]; cbn [definitionOf];
    try discriminate; destruct (ok status) eqn:Hok; cbn [negb];
    try discriminate.
  destruct (meanings entry) as [[|m0 ms]|] eqn:Em; try discriminate.
  intros (ms1 & m & ms2 & d & ds & E & Hd & Ht & Hb & Hn)%firstUsable_clean.
  exists status, entry, rest, ms1, m, ms2, d, ds. rewrite <- E. auto 10.
Qed.

Lemma fallbackAt_wellShaped now i :
  i < 3 -> wellShaped (definition (fallbackAt now i))
           /\ difficulty (fallbackAt now i)
              = byLength (String.length (word (fallbackAt now i)))
           /\ category (fallbackAt now i) = "general".
Proof.
  intros Hi. destruct i as [|[|[|i]]]; [| | |lia];
    (split; [repeat split; vm_compute; reflexivity|]);
    split; vm_compute; reflexivity.
Qed.

End WordServiceMore.

Import Js JsFacts Clean CleanFacts WordService WordServiceSpec WordServiceFacts
       WordServiceMore.

(** X11.  The difficulty [categorizeWordDifficulty] gives depends on the
    length of the word alone: easy up to 5 characters, medium up to 8, hard
    beyond.  The list of common words changes nothing, all of them having
    at most 5 letters, and neither does the case of the word. *)
Theorem categorizeWordDifficulty_by_length (x : string) :
  categorizeWordDifficulty x = byLength (String.length x)
  /\ categorizeWordDifficulty (toUpperCase x) = categorizeWordDifficulty x
  /\ categorizeWordDifficulty (toLowerCase x) = categorizeWordDifficulty x
  /\ (categorizeWordDifficulty x = "easy" <-> String.length x <= 5)
  /\ (categorizeWordDifficulty x = "hard" <-> 9 <= String.length x).
Proof.
  rewrite !categorize_byLength. unfold toUpperCase, toLowerCase.
  rewrite !length_mapChars.
  split; [reflexivity|]. split; [reflexivity|]. split; [reflexivity|].
  unfold byLength.
  destruct (String.length x <=? 5)%nat eqn:E5;
    destruct (String.length x <=? 8)%nat eqn:E8;
    rewrite ?Nat.leb_le, ?Nat.leb_gt in *;
    split; split; intros H; try discriminate; try reflexivity; lia.
Qed.

(** X12.  Every word [getRandomWordWithDefinition] returns, fetched or
    fallback, has a definition of more than 20 and fewer than 200
    characters that ends with a period and holds neither a parenthesized
    aside nor a run of whitespace; its difficulty is the one its length
    gives, and its category is general. *)
Theorem returned_definition_is_well_shaped (e : Env) (w : World) :
  exists r,
    fst (WordService.getRandomWordWithDefinition e w) = Some r
    /\ (20 < String.length (definition r) < 200)
    /\ endsWithPeriod (definition r) = true
    /\ hasAside (definition r) = false
    /\ hasSpaceRun (definition r) = false
    /\ difficulty r = byLength (String.length (word r))
    /\ category r = "general".
Proof.
  assert (forall text, inBand text = true ->
                       20 < String.length text < 200) as Hband.
  { intros text. unfold inBand.
    rewrite andb_true_iff, !Nat.ltb_lt. tauto. }
  destruct (chooseCandidate_spec e w) as (x & used1 & E & Ht & _).
  rewrite (getRandomWordWithDefinition_spec e w x _ E Ht).
  destruct (definitionOf (responseFor e _ x)) as [text|] eqn:Ed.
  - apply definitionOf_clean in Ed
      as (status & entry & rest & ms1 & m & ms2 & d & ds
          & _ & _ & _ & _ & -> & Hb & _).
    eexists. split; [reflexivity|]. cbn [definition word difficulty category].
    split; [apply Hband, Hb|].
    split; [apply cleanDefinition_ends_with_period|].
    split; [apply cleanDefinition_no_aside|].
    split; [apply cleanDefinition_no_space_run|].
    split; [|reflexivity].
    rewrite categorize_byLength. unfold toUpperCase.
    rewrite length_mapChars. reflexivity.
  - eexists. split; [reflexivity|].
    assert (random e (draws (mkWorld used1 (S (draws w)) (requests w))) mod 3
            < 3) as Hi by (apply Nat.mod_upper_bound; discriminate).
    destruct (fallbackAt_wellShaped (now e) _ Hi)
      as ((Hb & Hp & Ha & Hr) & Hd & Hc).
    split; [apply Hband, Hb|]. auto.
Qed.

(** X13.  A call whose fetch succeeds marks its candidate, and the next
    call, unless the three lists are exhausted by then, chooses a candidate
    that is not marked: a word just dispensed is not the next candidate. *)
Theorem dispensed_word_is_not_the_next_candidate
        (e1 e2 : Env) (w : World) (x1 text : string) :
  fst (chooseCandidate e1 w) = Some x1 ->
  definitionOf (responseFor e1 w x1) = Some text ->
  ~ allExhausted
      (usedWords (snd (WordService.getRandomWordWithDefinition e1 w))) ->
  (x1 ∈ usedWords (snd (WordService.getRandomWordWithDefinition e1 w)))
  /\ exists x2,
      fst (chooseCandidate
             e2 (snd (WordService.getRandomWordWithDefinition e1 w)))
      = Some x2
      /\ (x2 ∉ usedWords (snd (WordService.getRandomWordWithDefinition e1 w)))
      /\ x2 <> x1.
Proof.
  intros Hx1 Hok Hleft.
  destruct (chooseCandidate_spec e1 w) as (x & used1 & E & Ht & _).
  rewrite E in Hx1. injection Hx1 as ->.
  rewrite (getRandomWordWithDefinition_spec e1 w x1 _ E Ht) in *.
  change (responseFor e1 (mkWorld used1 (S (draws w)) (requests w)) x1)
    with (responseFor e1 w x1) in *.
  rewrite Hok in *. cbn [snd usedWords draws requests] in *.
  assert (x1 ∈ ({[x1]} ∪ used1 : gset string)) as Hmarked by set_solver.
  split; [exact Hmarked|].
  destruct (chooseCandidate_spec
              e2 (mkWorld ({[x1]} ∪ used1) (S (draws w))
                          (requests w ++ [toLowerCase x1])))
    as (x2 & used2 & E2 & _ & Hc).
  exists x2. rewrite E2. split; [reflexivity|]. cbn [usedWords] in Hc.
  assert (x2 ∉ ({[x1]} ∪ used1 : gset string)) as Hnot.
  { destruct Hc as [(_ & Hn & _)|[(_ & _ & Hn & _)
                   |[(_ & _ & _ & Hn & _)|(H1 & H2 & H3 & _)]]];
      try exact Hn.
    exfalso. apply Hleft. split; [exact H1|]. split; [exact H2 | exact H3]. }
  split; [exact Hnot|]. intros ->. exact (Hnot Hmarked).
Qed.

(** Two calls on a fresh instance whose API answers every request. *)
Lemma dispensed_word_is_not_the_next_candidate_witness :
  fst (chooseCandidate online fresh) = Some "HOUSE"
  /\ exists x2,
      fst (chooseCandidate
             online (snd (WordService.getRandomWordWithDefinition online fresh)))
      = Some x2
      /\ x2 <> "HOUSE".
Proof.
  pose proof (chooseCandidate_unused online fresh eq_refl) as E.
  change (nth_error CURATED_WORDS _) with (Some "HOUSE") in E.
  assert (definitionOf (responseFor online fresh "HOUSE")
          = Some "A building for people to live in.") as Hok
      by (vm_compute; reflexivity).
  pose proof (getRandomWordWithDefinition_spec online fresh "HOUSE" _ E
                eq_refl) as R.
  change (responseFor online (tick fresh) "HOUSE")
    with (responseFor online fresh "HOUSE") in R.
  rewrite Hok in R.
  split; [rewrite E; reflexivity|].
  destruct (dispensed_word_is_not_the_next_candidate
              online online fresh "HOUSE" _ (f_equal fst E) Hok)
    as (_ & x2 & Hx2 & _ & Hne).
  - rewrite R. cbn [snd usedWords]. intros (Hc & _).
    assert ("WATER" ∈ filter (fun y => y ∉ ({[ "HOUSE" ]} ∪ usedWords (tick fresh)
                                            : gset string)) CURATED_WORDS)
      as Hin.
    { apply elem_of_unused. split.
      - cbn [tick usedWords fresh]. intros H.
        apply elem_of_union in H as [H%elem_of_singleton|H];
          [discriminate | exact (not_elem_of_empty _ H)].
      - unfold CURATED_WORDS. right. left. }
    unfold exhausted in Hc. rewrite Hc in Hin.
    apply elem_of_nil in Hin. exact Hin.
  - exists x2. split; [exact Hx2 | exact Hne].
Defined.

(** X14.  [fetchDefinitionFromAPI] sends one request, for the word in
    lower case, and touches neither the used-words set nor the random
    source.  When it answers a text, the status was a success and the text
    is the cleaned first definition of a meaning of the first entry, more
    than 20 and fewer than 200 characters long, no earlier meaning having
    such a first definition. *)
Theorem fetch_answers_the_first_usable_definition
        (e : Env) (x : string) (w : World) :
  usedWords (snd (fetchDefinitionFromAPI e x w)) = usedWords w
  /\ draws (snd (fetchDefinitionFromAPI e x w)) = draws w
  /\ requests (snd (fetchDefinitionFromAPI e x w))
     = (requests w ++ [toLowerCase x])%list
  /\ fst (fetchDefinitionFromAPI e (toUpperCase x) w)
     = fst (fetchDefinitionFromAPI e x w)
  /\ forall text,
      fst (fetchDefinitionFromAPI e x w) = Some text ->
      exists status entry rest ms1 m ms2 d ds,
        responseFor e w x = HttpResponse status (Some (entry :: rest))
        /\ ok status = true
        /\ meanings entry = Some (ms1 ++ m :: ms2)%list
        /\ definitions m = Some (d :: ds)
        /\ text = cleanDefinition d
        /\ (20 < String.length text < 200)
        /\ firstUsable ms1 = None.
Proof.
  split; [reflexivity|]. split; [reflexivity|]. split; [reflexivity|].
  split.
  - unfold fetchDefinitionFromAPI. cbn [fst]. f_equal. f_equal.
    unfold toLowerCase, toUpperCase.
    induction x as [|c r IH]; [reflexivity|]. cbn [mapChars]. rewrite IH.
    f_equal. destruct c as [[] [] [] [] [] [] [] []]; vm_compute; reflexivity.
  - intros text Ht. unfold fetchDefinitionFromAPI in Ht. cbn [fst] in Ht.
    apply definitionOf_clean in Ht
      as (status & entry & rest & ms1 & m & ms2 & d & ds
          & Hr & Hok & Hm & Hd & -> & Hb & Hn).
    exists status, entry, rest, ms1, m, ms2, d, ds.
    unfold inBand in Hb. rewrite andb_true_iff, !Nat.ltb_lt in Hb.
    unfold responseFor. auto 10.
Qed.

(** A fetch that answers, on a fresh instance. *)
Lemma fetch_answers_the_first_usable_definition_witness :
  fst (fetchDefinitionFromAPI online "HOUSE" fresh)
  = Some "A building for people to live in."
  /\ exists d,
      "A building for people to live in." = cleanDefinition d
      /\ requests (snd (fetchDefinitionFromAPI online "HOUSE" fresh))
         = ["house"].
Proof.
  assert (fst (fetchDefinitionFromAPI online "HOUSE" fresh)
          = Some "A building for people to live in.") as Hok
      by (vm_compute; reflexivity).
  split; [exact Hok|].
  destruct (fetch_answers_the_first_usable_definition online "HOUSE" fresh)
    as (_ & _ & Hreq & _ & Hfirst).
  destruct (Hfirst _ Hok)
    as (status & entry & rest & ms1 & m & ms2 & d & ds
        & _ & _ & _ & _ & Hd & _).
  exists d. split; [exact Hd | exact Hreq].
Defined.

(** X15.  [getRandomWord] of the storage never reads the table of words:
    the word service always returns a word, so the promise is fulfilled
    with that word whatever the table holds, and also when the query for
    the table would reject. *)
Theorem storage_getRandomWord_never_reads_the_table
        (e : Env) (table : option (list Word)) (w : World) :
  exists r,
    fst (WordService.getRandomWordWithDefinition e w) = Some r
    /\ Storage.getRandomWord e table w
       = (Storage.Fulfilled (Some r),
          snd (WordService.getRandomWordWithDefinition e w)).
Proof.
  destruct (chooseCandidate_spec e w) as (x & used1 & E & Ht & _).
  unfold Storage.getRandomWord, bind.
  rewrite (getRandomWordWithDefinition_spec e w x _ E Ht).
  destruct (definitionOf (responseFor e _ x)); eexists; split; reflexivity.
Qed.

(* ===================================================================== *)
(** * Further properties of [cleanDefinition] *)
(* ===================================================================== *)

Module CleanMore.
Import Js Clean CleanFacts.

Lemma length_stripFrom b s : String.length (stripFrom b s) <= String.length s.
Proof.
  revert b. induction s as [|c r IH]; intros b; [destruct b; reflexivity|].
  cbn [stripFrom String.length]. pose proof (IH true). pose proof (IH false).
  repeat case_match; cbn [String.length]; lia.
Qed.

Lemma length_collapseFrom b s :
  String.length (collapseFrom b s) <= String.length s.
Proof.
  revert b. induction s as [|c r IH]; intros b; [reflexivity|].
  cbn [collapseFrom String.length]. pose proof (IH true). pose proof (IH false).
  repeat case_match; cbn [String.length]; lia.
Qed.

Lemma length_capitalizeFirst s :
  String.length (capitalizeFirst s) = String.length s.
Proof. destruct s as [|c r]; [reflexivity|]. cbn. case_match; reflexivity. Qed.

Lemma length_ensurePeriod s :
  1 <= String.length (ensurePeriod s) <= S (String.length s).
Proof.
  induction s as [|c r IH]; [cbn; lia|].
  cbn [ensurePeriod String.length]. case_match; cbn [String.length]; lia.
Qed.

Lemma length_trimStart s : String.length (trimStart s) <= String.length s.
Proof.
  induction s as [|c r IH]; [reflexivity|].
  cbn [trimStart]. case_match; cbn [String.length] in *; lia.
Qed.

Lemma startsWithSpace_ensurePeriod s :
  startsWithSpace s = false -> startsWithSpace (ensurePeriod s) = false.
Proof.
  destruct s as [|c r]; [reflexivity|]. intros Hs.
  pose proof (firstChar_ensurePeriod c r) as F.
  destruct (ensurePeriod (String c r)) as [|c' r']; [reflexivity|].
  cbn in F. injection F as ->. exact Hs.
Qed.

Lemma startsWithSpace_capitalizeFirst s :
  startsWithSpace (capitalizeFirst s) = startsWithSpace s.
Proof.
  destruct s as [|c r]; [reflexivity|]. cbn.
  case_match; [reflexivity|]. cbn. apply upper_isSpace.
Qed.

End CleanMore.

Import Js Clean CleanFacts CleanMore.

(** A definition whose first pass starts with a capital letter. *)
Lemma cleanDefinition_twice_witness :
  isAscii "a  large (very large) animal" = true
  /\ startsLower (cleanDefinition "a  large (very large) animal") = false
  /\ cleanDefinition (cleanDefinition "a  large (very large) animal")
     = cleanDefinition "a  large (very large) animal".
Proof.
  split; [reflexivity|]. split; [reflexivity|].
  apply cleanDefinition_twice; reflexivity.
Defined.

(** X17.  Cleaning never answers the empty text.  On ASCII text it never
    lengthens a text by more than the final period; so an ASCII definition
    of fewer than 20 characters is never in the band of the lookup once
    cleaned. *)
Theorem cleanDefinition_length (s : string) :
  1 <= String.length (cleanDefinition s)
  /\ (isAscii s = true ->
      String.length (cleanDefinition s) <= S (String.length s)
      /\ (String.length s < 20 ->
          WordServiceSpec.inBand (cleanDefinition s) = false)).
Proof.
  assert (String.length (cleanDefinition s) <= S (String.length s)) as Hle.
  { unfold cleanDefinition, trim.
    rewrite trimEnd_fixed
      by apply endsWithPeriod_trimStart, endsWithPeriod_ensurePeriod.
    pose proof (length_trimStart
                  (ensurePeriod
                     (capitalizeFirst (collapseSpaces (stripParens s))))).
    pose proof (length_ensurePeriod
                  (capitalizeFirst (collapseSpaces (stripParens s)))).
    pose proof (length_capitalizeFirst (collapseSpaces (stripParens s))).
    pose proof (length_collapseFrom false (stripParens s)).
    pose proof (length_stripFrom false s).
    unfold collapseSpaces, stripParens in *. lia. }
  split; [|intros _; split; [exact Hle|]].
  - pose proof (cleanDefinition_ends_with_period s) as Hp.
    destruct (cleanDefinition s); [discriminate | cbn; lia].
  - intros Hshort. unfold WordServiceSpec.inBand.
    apply andb_false_iff. left. apply Nat.ltb_ge. lia.
Qed.

(** A definition of 14 characters. *)
Lemma cleanDefinition_length_witness :
  isAscii "a small animal" = true
  /\ String.length "a small animal" < 20
  /\ WordServiceSpec.inBand (cleanDefinition "a small animal") = false.
Proof.
  assert (String.length "a small animal" < 20) as H by (cbn; lia).
  split; [reflexivity|]. split; [exact H|].
  destruct (cleanDefinition_length "a small animal") as [_ Hb].
  apply Hb; [reflexivity | exact H].
Defined.

(** X18.  On a tidy ASCII text, without parenthesized aside, with single
    spaces as its only whitespace and none in front, cleaning does two
    things only: it puts the first character in upper case and appends a
    period when the text does not end with one. *)
Theorem cleanDefinition_of_tidy_text (s : string) :
  isAscii s = true ->
  hasAside s = false -> plainSpaces s = true -> hasSpaceRun s = false ->
  startsWithSpace s = false ->
  cleanDefinition s = ensurePeriod (capitalizeFirst s).
Proof.
  intros _ Ha Hp Hr Hs. unfold cleanDefinition, stripParens, collapseSpaces.
  rewrite (stripFrom_fixed s Ha).
  rewrite (collapseFrom_fixed false s Hp Hr) by discriminate.
  unfold trim. rewrite trimStart_fixed.
  - apply trimEnd_fixed, endsWithPeriod_ensurePeriod.
  - apply startsWithSpace_ensurePeriod.
    rewrite startsWithSpace_capitalizeFirst. exact Hs.
Qed.

(** A tidy definition. *)
Lemma cleanDefinition_of_tidy_text_witness :
  isAscii "a building for human habitation" = true
  /\ cleanDefinition "a building for human habitation"
     = "A building for human habitation.".
Proof.
  split; [reflexivity|].
  rewrite (cleanDefinition_of_tidy_text "a building for human habitation");
    reflexivity.
Defined.

(* ===================================================================== *)
(** * Where the selection methods agree *)
(* ===================================================================== *)

Import Js JsFacts EnhancedWordService EnhancedSpec EnhancedFacts Runs
       SelectionFacts.

(** On a set of words of the database, the mixed tier and the random
    selection do the same. *)
Lemma mixed_is_random_within (DB : list DbWord) (depth draw : nat) (now : Z)
      (used : gset string) :
  used ⊆ list_to_set (wordsOf DB) ->
  getWordByDifficulty DB depth "mixed" draw now used
  = EnhancedWordService.getRandomWordWithDefinition DB depth draw now used.
Proof.
  revert used. induction depth as [|depth IH]; intros used Hsub;
    [reflexivity|].
  change (wordPool DB "mixed") with DB in *.
  destruct (available DB used) as [|first rest] eqn:E.
  - rewrite (getWordByDifficulty_retry DB depth "mixed" draw now used E).
    rewrite (getRandomWordWithDefinition_retry DB depth draw now used E).
    change (wordPool DB "mixed") with DB.
    assert (deleteAll DB used = ∅) as -> by (rewrite deleteAll_spec; set_solver).
    apply IH. set_solver.
  - erewrite getWordByDifficulty_pick by (exact (f_equal head E)).
    cbn [EnhancedWordService.getRandomWordWithDefinition].
    change (wordPool DB "mixed") with DB. rewrite E. reflexivity.
Qed.

(** X19.  In every state an instance can reach, [getWordByDifficulty] for
    the mixed tier and [getRandomWordWithDefinition] behave alike: same
    word returned, same set left, or stack exhausted together. *)
Theorem mixed_tier_is_the_random_selection
        (DB : list DbWord) (depth draw : nat) (now : Z) (used : gset string) :
  Reachable DB used ->
  getWordByDifficulty DB depth "mixed" draw now used
  = EnhancedWordService.getRandomWordWithDefinition DB depth draw now used.
Proof.
  intros Hr. apply mixed_is_random_within, reachable_within, Hr.
Qed.

(** The two on the built-in list at the start of an instance. *)
Lemma mixed_tier_is_the_random_selection_witness :
  Reachable getFallbackWordList ∅
  /\ getWordByDifficulty getFallbackWordList 2 "mixed" 0 0 ∅
     = EnhancedWordService.getRandomWordWithDefinition
         getFallbackWordList 2 0 0 ∅.
Proof.
  split; [apply reachStart|].
  apply mixed_tier_is_the_random_selection, reachStart.
Defined.

(** X20.  With an empty personal list and a word of the pool still unseen,
    [getSmartWordSelection] selects as [getWordByDifficulty] does: the same
    word is returned and the same set is left. *)
Theorem smart_selection_without_history
        (DB : list DbWord) (d : string) (depth draw : nat) (now : Z)
        (used : gset string) :
  available (wordPool DB d) used <> [] ->
  getWordByDifficulty DB (S depth) d draw now used
  = Returned (smartWord (getSmartWordSelection DB [] d draw now used))
             (smartUsed (getSmartWordSelection DB [] d draw now used)).
Proof.
  intros Hne.
  assert (unseen (wordPool DB d) [] used = available (wordPool DB d) used)
    as Hsame.
  { unfold unseen, available. apply list_filter_iff. intros e.
    rewrite elem_of_nil. tauto. }
  destruct (available (wordPool DB d) used) as [|first rest] eqn:E;
    [congruence|].
  erewrite getWordByDifficulty_pick by (rewrite E; reflexivity).
  rewrite (getSmartWordSelection_unseen DB [] d draw now used first rest Hsame).
  rewrite E. reflexivity.
Qed.

(** The two on the built-in list with WATER seen. *)
Lemma smart_selection_without_history_witness :
  getWordByDifficulty getFallbackWordList 1 "easy" 4 0 {[ "WATER" ]}
  = Returned
      (smartWord (getSmartWordSelection getFallbackWordList [] "easy" 4 0
                                        {[ "WATER" ]}))
      (smartUsed (getSmartWordSelection getFallbackWordList [] "easy" 4 0
                                        {[ "WATER" ]})).
Proof.
  apply smart_selection_without_history. vm_compute. discriminate.
Defined.

